(** * A customer-record service (crm_api.py): model and verified properties

    The program is a FastAPI application with five endpoints over one
    SQLModel table, [cliente], kept in a SQLite file.  The handlers are
    embedded as functions in a small session monad over the committed
    content of that table.

    What the collaborators do is written out where the handlers rely on it:
    - the table is a list of rows in rowid order, the order of a full scan;
      [id] is an INTEGER PRIMARY KEY, so a row inserted without an id gets
      the largest id in the table plus one (1 in an empty table);
    - [email] carries a UNIQUE index ([Field(unique=True)]): an INSERT or
      UPDATE that would give two rows the same email raises an integrity
      error and the transaction is rolled back;
    - a request body is validated against [ClienteBase] before the handler
      runs, a query parameter against its [Query] declaration; a request
      that fails validation is answered with status 422;
    - a negative OFFSET counts as zero and a negative LIMIT as no limit;
    - SQLite integers are signed and 64 bits wide: an id, offset or limit
      outside that range cannot be bound to a statement, the driver raises
      OverflowError and the request ends with status 500.

    Python integers are unbounded ([Z]).  A JSON body is modelled by the
    four keys the schema knows, each absent or present with a value: null,
    a string, or a value of another kind.  Path and query parameters are
    integers, as the signatures of the handlers declare them; a parameter
    that is not an integer is rejected before the handler and is not a
    request of the model.  A table that has used up its rowids is outside
    the model. *)

From Stdlib Require Import ZArith List String Ascii Bool Sorted Lia.
Import ListNotations.
Open Scope string_scope.
Open Scope list_scope.
Open Scope Z_scope.

Set Implicit Arguments.

(** ** Data model *)

(** A dict over the four field names of [ClienteBase]: a key is absent
    ([None]) or bound to a value.  [telefone] and [empresa] are
    [Optional[str]], so a present key may be bound to [None].  It is both the
    shape of a JSON request body and of the dict [model_dump] returns. *)
Module FieldsDict.
Record t := mk {
  nome : option string;
  email : option string;
  telefone : option (option string);
  empresa : option (option string)
}.
End FieldsDict.

(** [class ClienteBase(SQLModel)]: [nome] and [email] are required,
    [telefone] and [empresa] default to [None].  The outer option of the two
    optional fields records whether the field was set by the request
    ([model_fields_set]); an unset field reads as its default. *)
Module ClienteBase.
Record t := mk {
  nome : string;
  email : string;
  telefone : option (option string);
  empresa : option (option string)
}.

(** The value an attribute access returns. *)
Definition telefone_value (c : t) : option string :=
  match telefone c with Some v => v | None => None end.
Definition empresa_value (c : t) : option string :=
  match empresa c with Some v => v | None => None end.

(** The required keys of validation, on a body whose values have the
    types of their fields: [nome] and [email] must be there. *)
Definition validate (body : FieldsDict.t) : option t :=
  match FieldsDict.nome body, FieldsDict.email body with
  | Some n, Some e =>
      Some (mk n e (FieldsDict.telefone body) (FieldsDict.empresa body))
  | _, _ => None
  end.

(** [model_dump(exclude_unset=True)]: the fields that were set. *)
Definition model_dump_exclude_unset (c : t) : FieldsDict.t :=
  FieldsDict.mk (Some (nome c)) (Some (email c)) (telefone c) (empresa c).
End ClienteBase.

(** A value of a JSON body: null, a string, or a value of another kind
    (a number, a boolean, an array, an object). *)
Inductive json :=
| JNull
| JString (s : string)
| JOther.

(** The JSON object of a request body, by the four keys of the schema;
    other keys are ignored by validation. *)
Module Body.
Record t := mk {
  nome : option json;
  email : option json;
  telefone : option json;
  empresa : option json
}.

(** A [str] field takes a string and nothing else. *)
Definition str (v : option json) : option (option string) :=
  match v with
  | None => Some None
  | Some (JString s) => Some (Some s)
  | Some _ => None
  end.

(** An [Optional[str]] field takes a string or null. *)
Definition optional_str (v : option json) : option (option (option string)) :=
  match v with
  | None => Some None
  | Some JNull => Some (Some None)
  | Some (JString s) => Some (Some (Some s))
  | Some JOther => None
  end.

(** The type checks of validation: every key that is present has a value
    of the type of its field.  [None] when one has not. *)
Definition typed (body : t) : option FieldsDict.t :=
  match str (nome body), str (email body),
        optional_str (telefone body), optional_str (empresa body) with
  | Some n, Some e, Some t, Some m => Some (FieldsDict.mk n e t m)
  | _, _, _, _ => None
  end.

(** Validation of a request body against [ClienteBase]: the type checks,
    then the required keys. *)
Definition validate (body : t) : option ClienteBase.t :=
  match typed body with
  | Some d => ClienteBase.validate d
  | None => None
  end.

(** A dict of well-typed values as the JSON object it is. *)
Definition of_dict (d : FieldsDict.t) : t :=
  mk (option_map JString (FieldsDict.nome d))
     (option_map JString (FieldsDict.email d))
     (option_map (fun v => match v with Some s => JString s | None => JNull end)
                 (FieldsDict.telefone d))
     (option_map (fun v => match v with Some s => JString s | None => JNull end)
                 (FieldsDict.empresa d)).
End Body.

Coercion Body.of_dict : FieldsDict.t >-> Body.t.

(** [class Cliente(ClienteBase, table=True)]: a row of the table.  A stored
    row always has its [id]; the same five fields make up [ClienteRead], the
    response model. *)
Module Cliente.
Record t := mk {
  id : Z;
  nome : string;
  email : string;
  telefone : option string;
  empresa : option string
}.

(** [Cliente.model_validate(cliente)], once the storage has given it the
    id [i]. *)
Definition model_validate (c : ClienteBase.t) (i : Z) : t :=
  mk i (ClienteBase.nome c) (ClienteBase.email c)
     (ClienteBase.telefone_value c) (ClienteBase.empresa_value c).

(** [db_cliente.sqlmodel_update(update_data)]: every key of the dict is
    assigned to the attribute of that name, the others are not touched. *)
Definition sqlmodel_update (r : t) (d : FieldsDict.t) : t :=
  mk (id r)
     (match FieldsDict.nome d with Some v => v | None => nome r end)
     (match FieldsDict.email d with Some v => v | None => email r end)
     (match FieldsDict.telefone d with Some v => v | None => telefone r end)
     (match FieldsDict.empresa d with Some v => v | None => empresa r end).
End Cliente.

(** The committed content of the table, in rowid order. *)
Definition table := list Cliente.t.

(** ** Errors and results *)

Inductive error :=
| HTTPException (status_code : Z) (detail : string)
| RequestValidationError
| IntegrityError
| InvalidRequestError
| OverflowError.

(** The status of the response an error ends in. *)
Definition status (e : error) : Z :=
  match e with
  | HTTPException code _ => code
  | RequestValidationError => 422
  | IntegrityError => 500
  | InvalidRequestError => 500
  | OverflowError => 500
  end.

Inductive result (A : Type) :=
| Ok (a : A)
| Err (e : error).
Arguments Ok {A} a.
Arguments Err {A} e.

(** Does the integer fit a SQLite integer? *)
Definition int64 (z : Z) : bool := (- 2 ^ 63 <=? z) && (z <=? 2 ^ 63 - 1).

Definition DuplicateEmail : error := HTTPException 400 "E-mail já cadastrado".
Definition NotFound : error := HTTPException 404 "Cliente não encontrado".

(** ** The session monad

    A computation reads and writes the table and ends in a value or an
    error.  A write is a committed transaction; one that fails leaves the
    table as it was. *)
Definition Session (A : Type) : Type := table -> table * result A.

Definition ret {A} (a : A) : Session A := fun st => (st, Ok a).
Definition raise {A} (e : error) : Session A := fun st => (st, Err e).
Definition bind {A B} (m : Session A) (k : A -> Session B) : Session B :=
  fun st =>
    match m st with
    | (st', Ok a) => k a st'
    | (st', Err e) => (st', Err e)
    end.

Notation "x <- m ;; k" := (bind m (fun x => k))
  (at level 61, m at next level, right associativity).

(** *** Storage primitives *)

(** [select(Cliente).where(Cliente.email == e)] followed by [.first()]. *)
Definition select_where_email (e : string) : Session (option Cliente.t) :=
  fun st => (st, Ok (find (fun r => String.eqb (Cliente.email r) e) st)).

(** The row of the id [i], when there is one. *)
Definition lookup (i : Z) (st : table) : option Cliente.t :=
  find (fun r => Cliente.id r =? i) st.

(** [session.get(Cliente, i)].  The ids of the rows fit 64 bits, so a row is only found under an id
    that fits; an id that does not fit cannot be bound. *)
Definition session_get (i : Z) : Session (option Cliente.t) :=
  fun st =>
    match lookup i st with
    | Some r => (st, Ok (Some r))
    | None => if int64 i then (st, Ok None) else (st, Err OverflowError)
    end.

(** The rowid of the next inserted row. *)
Definition next_rowid (st : table) : Z :=
  match st with
  | [] => 1
  | r :: st' => 1 + fold_left Z.max (map Cliente.id st') (Cliente.id r)
  end.

(** The UNIQUE index on [email]: does a row other than [i] hold [e]? *)
Definition email_taken (e : string) (i : Z) (st : table) : bool :=
  existsb (fun r => negb (Cliente.id r =? i) && String.eqb (Cliente.email r) e) st.

(** [session.add(db_cliente); session.commit()] for a new object: INSERT.
    Returns the id the row got. *)
Definition add_commit_new (c : ClienteBase.t) : Session Z :=
  fun st =>
    let i := next_rowid st in
    if email_taken (ClienteBase.email c) i st then (st, Err IntegrityError)
    else (st ++ [Cliente.model_validate c i], Ok i).

(** [session.add(db_cliente); session.commit()] for a loaded object that
    was modified: UPDATE ... WHERE id = ?. *)
Definition add_commit_dirty (r : Cliente.t) : Session unit :=
  fun st =>
    if email_taken (Cliente.email r) (Cliente.id r) st then (st, Err IntegrityError)
    else (map (fun x => if Cliente.id x =? Cliente.id r then r else x) st, Ok tt).

(** [session.delete(db_cliente); session.commit()]: DELETE ... WHERE id = ?. *)
Definition delete_commit (r : Cliente.t) : Session unit :=
  fun st => (filter (fun x => negb (Cliente.id x =? Cliente.id r)) st, Ok tt).

(** [session.refresh(db_cliente)]: the row is read again by its id. *)
Definition refresh (i : Z) : Session Cliente.t :=
  fun st =>
    match lookup i st with
    | Some r => (st, Ok r)
    | None => (st, Err InvalidRequestError)
    end.

(** [.offset(n)] and [.limit(n)] of a select. *)
Definition sql_offset (n : Z) (rows : table) : table := skipn (Z.to_nat n) rows.
Definition sql_limit (n : Z) (rows : table) : table :=
  if n <? 0 then rows else firstn (Z.to_nat n) rows.

(** [session.exec(query).all()]: both numbers are bound to the statement. *)
Definition exec_all (offset limit : Z) : Session (list Cliente.t) :=
  fun st =>
    if int64 offset && int64 limit
    then (st, Ok (sql_limit limit (sql_offset offset st)))
    else (st, Err OverflowError).

(** ** The handlers *)

(** POST /clientes/ *)
Definition create_cliente (cliente : ClienteBase.t) : Session Cliente.t :=
  db_cliente_existente <- select_where_email (ClienteBase.email cliente) ;;
  match db_cliente_existente with
  | Some _ => raise DuplicateEmail
  | None =>
      new_id <- add_commit_new cliente ;;
      refresh new_id
  end.

(** GET /clientes/ with [offset: int = 0] and
    [limit: int = Query(default=10, le=100)]; a parameter left out of the
    query string is [None]. *)
Definition read_clientes (offset limit : option Z) : Session (list Cliente.t) :=
  let offset := match offset with Some n => n | None => 0 end in
  let limit := match limit with Some n => n | None => 10 end in
  if limit <=? 100 then exec_all offset limit
  else raise RequestValidationError.

(** GET /clientes/{cliente_id} *)
Definition read_cliente (cliente_id : Z) : Session Cliente.t :=
  db_cliente <- session_get cliente_id ;;
  match db_cliente with
  | None => raise NotFound
  | Some r => ret r
  end.

(** PATCH /clientes/{cliente_id} *)
Definition update_cliente (cliente_id : Z) (cliente_update : ClienteBase.t)
  : Session Cliente.t :=
  db_cliente <- session_get cliente_id ;;
  match db_cliente with
  | None => raise NotFound
  | Some r =>
      let update_data := ClienteBase.model_dump_exclude_unset cliente_update in
      let r' := Cliente.sqlmodel_update r update_data in
      _ <- add_commit_dirty r' ;;
      refresh (Cliente.id r')
  end.

(** DELETE /clientes/{cliente_id} *)
Definition delete_cliente (cliente_id : Z) : Session (list (string * string)) :=
  db_cliente <- session_get cliente_id ;;
  match db_cliente with
  | None => raise NotFound
  | Some r =>
      _ <- delete_commit r ;;
      ret [("message", "Cliente deletado com sucesso")]
  end.

(** ** The endpoints: validation of the body, then the handler *)

Definition post_clientes (body : Body.t) : Session Cliente.t :=
  match Body.validate body with
  | Some cliente => create_cliente cliente
  | None => raise RequestValidationError
  end.

Definition patch_cliente (cliente_id : Z) (body : Body.t) : Session Cliente.t :=
  match Body.validate body with
  | Some cliente_update => update_cliente cliente_id cliente_update
  | None => raise RequestValidationError
  end.

(** ** Requests and reachable states *)

Inductive request :=
| Create (body : Body.t)
| List (offset limit : option Z)
| Get (cliente_id : Z)
| Update (cliente_id : Z) (body : Body.t)
| Delete (cliente_id : Z).

(** The table after a request was served. *)
Definition step (st : table) (req : request) : table :=
  match req with
  | Create body => fst (post_clientes body st)
  | List offset limit => fst (read_clientes offset limit st)
  | Get i => fst (read_cliente i st)
  | Update i body => fst (patch_cliente i body st)
  | Delete i => fst (delete_cliente i st)
  end.

Definition run (st : table) (reqs : list request) : table :=
  fold_left step reqs st.

(** The states a service started on an empty table can be in. *)
Inductive reachable : table -> Prop :=
| reachable_init : reachable []
| reachable_step st req : reachable st -> reachable (step st req).

(** ** Predicates used in the statements *)

Definition emails_unique (st : table) : Prop := NoDup (map Cliente.email st).
Definition ids_unique (st : table) : Prop := NoDup (map Cliente.id st).

Definition has_email (e : string) (st : table) : Prop :=
  exists r, In r st /\ Cliente.email r = e.

Definition count_email (e : string) (st : table) : nat :=
  List.length (filter (fun r => String.eqb (Cliente.email r) e) st).

(** Rows in rowid order: the ids go up strictly. *)
Definition ids_ascending (st : table) : Prop :=
  StronglySorted Z.lt (map Cliente.id st).

(** The consistency of the table: primary key and unique index. *)
Definition consistent (st : table) : Prop :=
  ids_ascending st /\ emails_unique st.

(** A sequence of POST requests, with the result of each. *)
Fixpoint create_all (cs : list ClienteBase.t) (st : table)
  : table * list (result Cliente.t) :=
  match cs with
  | [] => (st, [])
  | c :: cs' =>
      let (st1, res) := create_cliente c st in
      let (st2, ress) := create_all cs' st1 in
      (st2, res :: ress)
  end.

(** The rows the inputs [cs] become when they are numbered from [i] on. *)
Fixpoint numbered (cs : list ClienteBase.t) (i : Z) : list Cliente.t :=
  match cs with
  | [] => []
  | c :: cs' => Cliente.model_validate c i :: numbered cs' (i + 1)
  end.

(** ** The application: one response per request *)

(** What a served request is answered with: a customer, a page of
    customers, or the JSON object of the delete handler. *)
Inductive response :=
| RespCliente (r : Cliente.t)
| RespClientes (rows : list Cliente.t)
| RespJSON (body : list (string * string)).

Definition fmap {A B} (f : A -> B) (m : Session A) : Session B :=
  x <- m ;; ret (f x).

(** The routes of [app]: verb and path select the handler. *)
Definition serve (req : request) : Session response :=
  match req with
  | Create body => fmap RespCliente (post_clientes body)
  | List offset limit => fmap RespClientes (read_clientes offset limit)
  | Get i => fmap RespCliente (read_cliente i)
  | Update i body => fmap RespCliente (patch_cliente i body)
  | Delete i => fmap RespJSON (delete_cliente i)
  end.

(** ** Start and stop of the service *)

(** The database file: without the [cliente] table, or with it. *)
Definition database := option table.

(** [create_db_and_tables]: [SQLModel.metadata.create_all(engine)] creates
    the table when the file does not have it and leaves a table that is
    there, rows included, alone. *)
Definition create_db_and_tables (db : database) : database :=
  match db with
  | None => Some []
  | Some st => Some st
  end.

(** [lifespan]: the code before the [yield] runs before the first request,
    the code after it when the service stops; in between the application
    serves the requests [reqs].  [out] collects what is printed. *)
Definition lifespan (reqs : list request) (db : database) (out : list string)
  : database * list string :=
  let out := out ++ ["Iniciando a API e criando tabelas no banco de dados..."] in
  match create_db_and_tables db with
  | Some st => (Some (run st reqs), out ++ ["Desligando a API..."])
  | None => (None, out ++ ["Desligando a API..."])
  end.

(** ** Sample data *)

Definition ana : ClienteBase.t :=
  ClienteBase.mk "Ana" "ana@crm.br" (Some (Some "1111")) (Some (Some "ACME")).
Definition bia : ClienteBase.t :=
  ClienteBase.mk "Bia" "bia@crm.br" None None.

Definition ana_body : FieldsDict.t :=
  FieldsDict.mk (Some "Ana") (Some "ana@crm.br") (Some (Some "1111")) (Some (Some "ACME")).
Definition bia_body : FieldsDict.t :=
  FieldsDict.mk (Some "Bia") (Some "bia@crm.br") None None.

(** A PATCH body that carries the phone and nothing else. *)
Definition phone_only (v : option string) : FieldsDict.t :=
  FieldsDict.mk None None (Some v) None.

Definition ana_row : Cliente.t :=
  Cliente.mk 1 "Ana" "ana@crm.br" (Some "1111") (Some "ACME").
Definition bia_row : Cliente.t :=
  Cliente.mk 2 "Bia" "bia@crm.br" None None.

(** A second customer record for Ana, under another email. *)
Definition ana_alias : ClienteBase.t :=
  ClienteBase.mk "Ana B" "anab@crm.br" None (Some (Some "ACME")).

Definition one_row : table := [ana_row].
Definition two_rows : table := [ana_row; bia_row].

(** Fifteen inputs with different emails. *)
Definition customer (k : nat) : ClienteBase.t :=
  ClienteBase.mk ("C" ++ String (Ascii.ascii_of_nat (65 + k)) "")
                 (String (Ascii.ascii_of_nat (97 + k)) "@crm.br") None None.
Definition fifteen : list ClienteBase.t := map customer (seq 0 15).

(** ** Runs of the model on the sample data *)

Example create_two :
  create_all [ana; bia] [] = (two_rows, [Ok ana_row; Ok bia_row]).
Proof. reflexivity. Qed.

Example create_same_email_again :
  create_cliente (ClienteBase.mk "Other" "ana@crm.br" None None) two_rows
  = (two_rows, Err DuplicateEmail).
Proof. reflexivity. Qed.

Example update_with_all_fields :
  patch_cliente 2 (FieldsDict.mk (Some "Bia") (Some "bia@crm.br") (Some (Some "2222")) None)
                two_rows
  = ([ana_row; Cliente.mk 2 "Bia" "bia@crm.br" (Some "2222") None],
     Ok (Cliente.mk 2 "Bia" "bia@crm.br" (Some "2222") None)).
Proof. reflexivity. Qed.

(** The unique index stops an update that takes the email of another row. *)
Example update_to_taken_email :
  update_cliente 2 (ClienteBase.mk "Bia" "ana@crm.br" None None) two_rows
  = (two_rows, Err IntegrityError).
Proof. reflexivity. Qed.

(** An id is given again once the row that had it is gone. *)
Example id_reused_after_delete :
  run [] [Create ana_body; Create bia_body; Delete 2; Create ana_body; Create bia_body]
  = two_rows.
Proof. reflexivity. Qed.

Example list_negative_limit :
  read_clientes (Some (-3)) (Some (-1)) two_rows = (two_rows, Ok two_rows).
Proof. reflexivity. Qed.

(** Numbers that do not fit 64 bits end in the overflow error. *)
Example get_id_too_large :
  read_cliente (2 ^ 63) two_rows = (two_rows, Err OverflowError).
Proof. reflexivity. Qed.

Example list_limit_too_small :
  read_clientes None (Some (- 2 ^ 63 - 1)) two_rows = (two_rows, Err OverflowError).
Proof. reflexivity. Qed.

Example list_limit_too_large_and_offset :
  read_clientes (Some (2 ^ 63)) (Some 101) two_rows
  = (two_rows, Err RequestValidationError).
Proof. reflexivity. Qed.

(** Values of the wrong kind in a body. *)
Example post_null_nome :
  post_clientes (Body.mk (Some JNull) (Some (JString "eva@crm.br")) None None) one_row
  = (one_row, Err RequestValidationError).
Proof. reflexivity. Qed.

Example post_number_for_telefone :
  post_clientes (Body.mk (Some (JString "Eva")) (Some (JString "eva@crm.br"))
                         (Some JOther) None) one_row
  = (one_row, Err RequestValidationError).
Proof. reflexivity. Qed.

Example post_null_telefone :
  post_clientes (Body.mk (Some (JString "Eva")) (Some (JString "eva@crm.br"))
                         (Some JNull) None) one_row
  = ([ana_row; Cliente.mk 2 "Eva" "eva@crm.br" None None],
     Ok (Cliente.mk 2 "Eva" "eva@crm.br" None None)).
Proof. reflexivity. Qed.

(** ** Facts about the storage primitives *)

Lemma has_email_cons e r st :
  has_email e (r :: st) <-> Cliente.email r = e \/ has_email e st.
Proof.
  unfold has_email; split.
  - intros (x & [Hx | Hx] & He); [left; congruence | right; eauto].
  - intros [He | (x & Hx & He)]; [exists r | exists x]; simpl; auto.
Qed.

Lemma select_first_none e st :
  find (fun r => String.eqb (Cliente.email r) e) st = None <-> ~ has_email e st.
Proof.
  induction st as [| r st IH]; simpl.
  - split; [intros _ (x & [] & _) | reflexivity].
  - rewrite has_email_cons.
    destruct (String.eqb_spec (Cliente.email r) e) as [He | He].
    + split; [discriminate | intros H; exfalso; auto].
    + rewrite IH. tauto.
Qed.

Lemma select_first_some e st r :
  find (fun r => String.eqb (Cliente.email r) e) st = Some r -> has_email e st.
Proof.
  intros H. apply find_some in H as [Hin He].
  apply String.eqb_eq in He. exists r; auto.
Qed.

Lemma email_taken_absent e i st : ~ has_email e st -> email_taken e i st = false.
Proof.
  intros H. unfold email_taken.
  destruct (existsb _ st) eqn:E; [| reflexivity].
  apply existsb_exists in E as (x & Hin & Hx).
  apply andb_true_iff in Hx as [_ Hx]. apply String.eqb_eq in Hx.
  exfalso; apply H; exists x; auto.
Qed.

Lemma fold_max_ge l : forall a, a <= fold_left Z.max l a.
Proof.
  induction l as [| x l IH]; simpl; intros a; [lia |].
  specialize (IH (Z.max a x)). lia.
Qed.

Lemma fold_max_bound l : forall a x, In x l -> x <= fold_left Z.max l a.
Proof.
  induction l as [| y l IH]; simpl; intros a x []; subst.
  - pose proof (fold_max_ge l (Z.max a x)). lia.
  - auto.
Qed.

(** Every id in the table is below the next rowid. *)
Lemma next_rowid_above st r : In r st -> Cliente.id r < next_rowid st.
Proof.
  destruct st as [| r0 st]; cbn [next_rowid In]; [intros [] |].
  intros [-> | Hin].
  - pose proof (fold_max_ge (map Cliente.id st) (Cliente.id r)). lia.
  - pose proof (fold_max_bound (map Cliente.id st) (Cliente.id r0)
                  (Cliente.id r) (in_map _ _ _ Hin)). lia.
Qed.

Lemma next_rowid_fresh st : ~ In (next_rowid st) (map Cliente.id st).
Proof.
  intros H. apply in_map_iff in H as (r & Hid & Hin).
  apply next_rowid_above in Hin. lia.
Qed.

Lemma lookup_none i st : lookup i st = None <-> ~ In i (map Cliente.id st).
Proof.
  unfold lookup. induction st as [| r st IH]; simpl; [tauto |].
  destruct (Z.eqb_spec (Cliente.id r) i); [| rewrite IH; tauto].
  split; [discriminate | intros H; exfalso; auto].
Qed.

Lemma lookup_some i st r : lookup i st = Some r -> In r st /\ Cliente.id r = i.
Proof.
  unfold lookup. intros H. apply find_some in H as [Hin Hid].
  split; [assumption | lia].
Qed.

(** A row appended under an id the table does not have is the one found. *)
Lemma lookup_appended st r :
  ~ In (Cliente.id r) (map Cliente.id st) -> lookup (Cliente.id r) (st ++ [r]) = Some r.
Proof.
  unfold lookup. induction st as [| x st IH]; simpl; intros H.
  - rewrite Z.eqb_refl. reflexivity.
  - destruct (Z.eqb_spec (Cliente.id x) (Cliente.id r)); [exfalso; auto |].
    apply IH. tauto.
Qed.

(** A dict of well-typed values passes the type checks as it is. *)
Lemma typed_of_dict d : Body.typed (Body.of_dict d) = Some d.
Proof.
  destruct d as [[n |] [e |] [[t |] |] [[m |] |]]; reflexivity.
Qed.

Lemma validate_of_dict d : Body.validate (Body.of_dict d) = ClienteBase.validate d.
Proof. unfold Body.validate. rewrite typed_of_dict. reflexivity. Qed.

Lemma int64_true z : int64 z = true <-> - 2 ^ 63 <= z <= 2 ^ 63 - 1.
Proof. unfold int64. rewrite andb_true_iff, !Z.leb_le. reflexivity. Qed.

Lemma int64_false z : int64 z = false <-> z < - 2 ^ 63 \/ 2 ^ 63 - 1 < z.
Proof.
  unfold int64. rewrite andb_false_iff, !Z.leb_gt. reflexivity.
Qed.

Lemma session_get_found i st r :
  lookup i st = Some r -> session_get i st = (st, Ok (Some r)).
Proof. intros H. unfold session_get. rewrite H. reflexivity. Qed.

Lemma session_get_missing i st :
  lookup i st = None ->
  session_get i st = if int64 i then (st, Ok None) else (st, Err OverflowError).
Proof. intros H. unfold session_get. rewrite H. reflexivity. Qed.

(** ** What [create_cliente] returns *)

Lemma create_cliente_taken c st :
  has_email (ClienteBase.email c) st -> create_cliente c st = (st, Err DuplicateEmail).
Proof.
  intros H. unfold create_cliente, bind, select_where_email.
  destruct (find _ st) eqn:E; [reflexivity |].
  apply select_first_none in E. contradiction.
Qed.

Lemma create_cliente_fresh c st :
  ~ has_email (ClienteBase.email c) st ->
  let row := Cliente.model_validate c (next_rowid st) in
  create_cliente c st = (st ++ [row], Ok row).
Proof.
  intros H row. unfold create_cliente, bind, select_where_email.
  rewrite (proj2 (select_first_none _ _) H).
  unfold add_commit_new. rewrite (email_taken_absent _ H).
  fold row. unfold refresh.
  change (next_rowid st) with (Cliente.id row).
  rewrite lookup_appended; [reflexivity |].
  apply next_rowid_fresh.
Qed.

Lemma has_email_dec e st : {has_email e st} + {~ has_email e st}.
Proof.
  destruct (find (fun r => String.eqb (Cliente.email r) e) st) eqn:E.
  - left. eapply select_first_some; eauto.
  - right. apply select_first_none; assumption.
Qed.

(** ** Counting the rows that hold an email *)

Lemma count_email_app e st1 st2 :
  count_email e (st1 ++ st2) = (count_email e st1 + count_email e st2)%nat.
Proof. unfold count_email. rewrite filter_app, length_app. reflexivity. Qed.

Lemma count_email_absent e st : ~ has_email e st -> count_email e st = 0%nat.
Proof.
  unfold count_email. induction st as [| r st IH]; simpl; intros H; [reflexivity |].
  rewrite has_email_cons in H.
  destruct (String.eqb_spec (Cliente.email r) e); [exfalso; auto |].
  apply IH. tauto.
Qed.

Lemma has_email_in_map e st : has_email e st <-> In e (map Cliente.email st).
Proof.
  unfold has_email. rewrite in_map_iff.
  split; intros (r & H1 & H2); exists r; auto.
Qed.

Lemma count_email_unique e st :
  emails_unique st -> has_email e st -> count_email e st = 1%nat.
Proof.
  unfold emails_unique. induction st as [| r st IH]; simpl; intros Hnd Hin.
  - destruct Hin as (x & [] & _).
  - inversion Hnd as [| ? ? Hnotin Hnd']; subst.
    apply has_email_cons in Hin.
    change (count_email e (r :: st)) with (count_email e ([r] ++ st)).
    rewrite count_email_app. unfold count_email at 1. simpl.
    destruct (String.eqb_spec (Cliente.email r) e) as [He | He].
    + rewrite count_email_absent; [reflexivity |].
      rewrite has_email_in_map. congruence.
    + destruct Hin as [Hin | Hin]; [contradiction |].
      simpl. auto.
Qed.

(** ** Create *)

(** C4. Create answers DuplicateEmail, status 400, exactly when a row with
    the requested email is in the table.  When there is none, the table
    grows by exactly one row; that row has an id no other row has, the
    [nome] and [email] of the request, its [telefone] and [empresa] where
    the request has them and null where it has not; and it is the record
    returned. *)
Theorem create_cliente_duplicate_iff (st : table) (c : ClienteBase.t) :
  status DuplicateEmail = 400
  /\ (snd (create_cliente c st) = Err DuplicateEmail
      <-> has_email (ClienteBase.email c) st)
  /\ (~ has_email (ClienteBase.email c) st ->
      exists r,
        create_cliente c st = (st ++ [r], Ok r)
        /\ ~ In (Cliente.id r) (map Cliente.id st)
        /\ Cliente.nome r = ClienteBase.nome c
        /\ Cliente.email r = ClienteBase.email c
        /\ Cliente.telefone r
           = match ClienteBase.telefone c with Some v => v | None => None end
        /\ Cliente.empresa r
           = match ClienteBase.empresa c with Some v => v | None => None end).
Proof.
  split; [reflexivity |]. split.
  - split.
    + intros H. destruct (has_email_dec (ClienteBase.email c) st) as [| Hno]; [assumption |].
      rewrite (create_cliente_fresh c Hno) in H. discriminate.
    + intros H. rewrite (create_cliente_taken c H). reflexivity.
  - intros Hno. exists (Cliente.model_validate c (next_rowid st)). split.
    + apply (create_cliente_fresh c Hno).
    + split; [apply next_rowid_fresh | repeat split].
Qed.

Lemma create_cliente_duplicate_iff_witness :
  ~ has_email (ClienteBase.email ana_alias) one_row
  /\ exists r,
       create_cliente ana_alias one_row = (one_row ++ [r], Ok r)
       /\ ~ In (Cliente.id r) (map Cliente.id one_row)
       /\ Cliente.nome r = "Ana B"
       /\ Cliente.email r = "anab@crm.br"
       /\ Cliente.telefone r = None
       /\ Cliente.empresa r = Some "ACME".
Proof.
  assert (Hno : ~ has_email (ClienteBase.email ana_alias) one_row).
  { apply select_first_none. reflexivity. }
  split; [exact Hno |].
  exact (proj2 (proj2 (create_cliente_duplicate_iff one_row ana_alias)) Hno).
Defined.

(** C5. Round trip: when the email of a request is not in the table, Create
    succeeds, and Get with the id of the record it returned answers with
    that same record. *)
Theorem create_then_read (st : table) (c : ClienteBase.t) :
  ~ has_email (ClienteBase.email c) st ->
  exists st' r,
    create_cliente c st = (st', Ok r)
    /\ read_cliente (Cliente.id r) st' = (st', Ok r).
Proof.
  intros Hno.
  exists (st ++ [Cliente.model_validate c (next_rowid st)]),
         (Cliente.model_validate c (next_rowid st)).
  split; [apply (create_cliente_fresh c Hno) |].
  unfold read_cliente, bind, session_get.
  rewrite lookup_appended; [reflexivity | apply next_rowid_fresh].
Qed.

Lemma create_then_read_witness :
  ~ has_email (ClienteBase.email bia) one_row
  /\ exists st' r,
       create_cliente bia one_row = (st', Ok r)
       /\ read_cliente (Cliente.id r) st' = (st', Ok r).
Proof.
  assert (Hno : ~ has_email (ClienteBase.email bia) one_row).
  { apply select_first_none. reflexivity. }
  split; [exact Hno | exact (@create_then_read one_row bia Hno)].
Defined.

(** C6. Two creates with the same email, on a table with no email twice:
    whatever the first one did, the second fails with DuplicateEmail, it
    leaves the table as the first one left it, and that table has exactly
    one row with the email. *)
Theorem create_twice_same_email (st : table) (c1 c2 : ClienteBase.t) :
  emails_unique st ->
  ClienteBase.email c2 = ClienteBase.email c1 ->
  let st1 := fst (create_cliente c1 st) in
  create_cliente c2 st1 = (st1, Err DuplicateEmail)
  /\ count_email (ClienteBase.email c1) st1 = 1%nat.
Proof.
  intros Huniq He st1. subst st1.
  destruct (has_email_dec (ClienteBase.email c1) st) as [Hin | Hno].
  - rewrite (create_cliente_taken c1 Hin). simpl. split.
    + apply create_cliente_taken. rewrite He. assumption.
    + apply count_email_unique; assumption.
  - rewrite (create_cliente_fresh c1 Hno). simpl. split.
    + apply create_cliente_taken. rewrite He.
      exists (Cliente.model_validate c1 (next_rowid st)). split; [| reflexivity].
      apply in_or_app. right. left. reflexivity.
    + rewrite count_email_app, (count_email_absent Hno).
      unfold count_email. simpl. rewrite String.eqb_refl. reflexivity.
Qed.

Lemma create_twice_same_email_witness :
  emails_unique one_row
  /\ ClienteBase.email (ClienteBase.mk "Bianca" "bia@crm.br" None None) = ClienteBase.email bia
  /\ create_cliente (ClienteBase.mk "Bianca" "bia@crm.br" None None) two_rows
     = (two_rows, Err DuplicateEmail)
  /\ count_email "bia@crm.br" two_rows = 1%nat.
Proof.
  assert (Huniq : emails_unique one_row).
  { repeat constructor. simpl. tauto. }
  split; [exact Huniq |]. split; [reflexivity |].
  exact (@create_twice_same_email one_row bia
           (ClienteBase.mk "Bianca" "bia@crm.br" None None) Huniq eq_refl).
Defined.

(** ** Get, Update and Delete on an id *)

Lemma lookup_filter_other i st :
  lookup i (filter (fun x => negb (Cliente.id x =? i)) st) = None.
Proof.
  apply lookup_none. intros H.
  apply in_map_iff in H as (r & Hid & Hin).
  apply filter_In in Hin as [_ Hneq].
  rewrite <- Hid, Z.eqb_refl in Hneq. discriminate.
Qed.

Lemma read_cliente_missing i st :
  lookup i st = None ->
  read_cliente i st = (st, Err (if int64 i then NotFound else OverflowError)).
Proof.
  intros H. unfold read_cliente, bind. rewrite (session_get_missing i st H).
  destruct (int64 i); reflexivity.
Qed.

Lemma update_cliente_missing i c st :
  lookup i st = None ->
  update_cliente i c st = (st, Err (if int64 i then NotFound else OverflowError)).
Proof.
  intros H. unfold update_cliente, bind. rewrite (session_get_missing i st H).
  destruct (int64 i); reflexivity.
Qed.

Lemma delete_cliente_missing i st :
  lookup i st = None ->
  delete_cliente i st = (st, Err (if int64 i then NotFound else OverflowError)).
Proof.
  intros H. unfold delete_cliente, bind. rewrite (session_get_missing i st H).
  destruct (int64 i); reflexivity.
Qed.

(** C7, as the code has it.  An id within 64 bits that names no row: Get
    and Delete fail with NotFound, status 404, and so does Update, the
    handler and the route with a body that passes validation; this with
    any number of other rows in the table, and the table is left as it
    was. *)
Theorem missing_id_not_found (st : table) (i : Z) (c : ClienteBase.t) (body : Body.t) :
  ~ In i (map Cliente.id st) ->
  - 2 ^ 63 <= i <= 2 ^ 63 - 1 ->
  Body.validate body = Some c ->
  status NotFound = 404
  /\ read_cliente i st = (st, Err NotFound)
  /\ update_cliente i c st = (st, Err NotFound)
  /\ patch_cliente i body st = (st, Err NotFound)
  /\ delete_cliente i st = (st, Err NotFound).
Proof.
  intros Hno Hi Hbody. apply lookup_none in Hno. apply int64_true in Hi.
  unfold patch_cliente. rewrite Hbody.
  rewrite (read_cliente_missing i st Hno), (update_cliente_missing i c st Hno),
          (delete_cliente_missing i st Hno), Hi.
  repeat split.
Qed.

Lemma missing_id_not_found_witness :
  (~ In 999999 (map Cliente.id two_rows)
   /\ - 2 ^ 63 <= 999999 <= 2 ^ 63 - 1
   /\ Body.validate ana_body = Some ana)
  /\ status NotFound = 404
  /\ read_cliente 999999 two_rows = (two_rows, Err NotFound)
  /\ update_cliente 999999 ana two_rows = (two_rows, Err NotFound)
  /\ patch_cliente 999999 ana_body two_rows = (two_rows, Err NotFound)
  /\ delete_cliente 999999 two_rows = (two_rows, Err NotFound).
Proof.
  assert (Hno : ~ In 999999 (map Cliente.id two_rows)).
  { simpl. intros [H | [H | []]]; discriminate. }
  assert (Hi : - 2 ^ 63 <= 999999 <= 2 ^ 63 - 1).
  { split; discriminate. }
  split; [split; [exact Hno | split; [exact Hi | reflexivity]] |].
  exact (@missing_id_not_found two_rows 999999 ana ana_body Hno Hi eq_refl).
Defined.

(** C7 for every id and every body fails in two places.  Past 64 bits:
    2^63 names no row of the table, and Get, Update and Delete on it end
    in the overflow error, status 500, not in NotFound.  And before the
    handler: the id 999999 names no row, and a PATCH on it whose body has
    the phone and nothing else ends in the validation error, status 422. *)
Lemma missing_id_too_large :
  (~ In (2 ^ 63) (map Cliente.id two_rows)
   /\ read_cliente (2 ^ 63) two_rows = (two_rows, Err OverflowError)
   /\ update_cliente (2 ^ 63) ana two_rows = (two_rows, Err OverflowError)
   /\ delete_cliente (2 ^ 63) two_rows = (two_rows, Err OverflowError)
   /\ status OverflowError = 500
   /\ OverflowError <> NotFound)
  /\ (~ In 999999 (map Cliente.id two_rows)
      /\ patch_cliente 999999 (phone_only (Some "9999")) two_rows
         = (two_rows, Err RequestValidationError)
      /\ status RequestValidationError = 422
      /\ RequestValidationError <> NotFound).
Proof.
  split.
  - split; [simpl; intros [H | [H | []]]; discriminate |].
    repeat split. discriminate.
  - split; [simpl; intros [H | [H | []]]; discriminate |].
    repeat split. discriminate.
Qed.

(** C8. Delete on an id that names a row: the answer is the message and
    nothing else, the table is the old one without the rows of that id, with
    every other row kept in place, and Get with the same id, an id within
    64 bits as the ids of rows are, then fails with NotFound. *)
Theorem delete_then_read (st : table) (i : Z) :
  In i (map Cliente.id st) ->
  let st' := filter (fun x => negb (Cliente.id x =? i)) st in
  delete_cliente i st = (st', Ok [("message", "Cliente deletado com sucesso")])
  /\ ~ In i (map Cliente.id st')
  /\ (- 2 ^ 63 <= i <= 2 ^ 63 - 1 -> read_cliente i st' = (st', Err NotFound)).
Proof.
  intros Hin st'.
  destruct (lookup i st) as [r |] eqn:E.
  2: { apply lookup_none in E. contradiction. }
  pose proof (lookup_some _ _ E) as [_ Hid].
  split; [| split].
  - unfold delete_cliente, bind, delete_commit, ret.
    rewrite (session_get_found _ _ E), Hid. reflexivity.
  - apply lookup_none. apply lookup_filter_other.
  - intros Hi. apply int64_true in Hi. subst st'.
    rewrite (read_cliente_missing i _ (lookup_filter_other i st)), Hi. reflexivity.
Qed.

Lemma delete_then_read_witness :
  In 1 (map Cliente.id two_rows)
  /\ delete_cliente 1 two_rows = ([bia_row], Ok [("message", "Cliente deletado com sucesso")])
  /\ ~ In 1 (map Cliente.id [bia_row])
  /\ read_cliente 1 [bia_row] = ([bia_row], Err NotFound).
Proof.
  assert (Hin : In 1 (map Cliente.id two_rows)) by (left; reflexivity).
  assert (Hi : - 2 ^ 63 <= 1 <= 2 ^ 63 - 1) by (split; discriminate).
  split; [exact Hin |].
  destruct (@delete_then_read two_rows 1 Hin) as (H1 & H2 & H3).
  split; [exact H1 | split; [exact H2 | exact (H3 Hi)]].
Defined.

(** ** Get and List *)

Lemma read_only_handlers (st : table) :
  (forall i, fst (read_cliente i st) = st)
  /\ (forall offset limit, fst (read_clientes offset limit st) = st).
Proof.
  split.
  - intros i. unfold read_cliente, bind, session_get.
    destruct (lookup i st); [reflexivity |]. destruct (int64 i); reflexivity.
  - intros offset limit. unfold read_clientes, exec_all.
    destruct (_ <=? 100); [| reflexivity].
    destruct (_ && _); reflexivity.
Qed.

(** C10. Get and List are read-only: whatever the input and whether the
    call succeeds or fails, the table after the call is the table before
    it. *)
Theorem reads_leave_table (st : table) :
  (forall i, fst (read_cliente i st) = st)
  /\ (forall offset limit, fst (read_clientes offset limit st) = st).
Proof. exact (read_only_handlers st). Qed.

(** A page is read when both numbers fit 64 bits and the limit passed
    its check. *)
Lemma read_clientes_accepted offset limit st :
  - 2 ^ 63 <= offset <= 2 ^ 63 - 1 -> - 2 ^ 63 <= limit <= 100 ->
  read_clientes (Some offset) (Some limit) st
  = (st, Ok (sql_limit limit (sql_offset offset st))).
Proof.
  intros Ho Hl. unfold read_clientes, exec_all.
  destruct (Z.leb_spec limit 100); [| lia].
  rewrite (proj2 (int64_true offset) Ho).
  rewrite (proj2 (int64_true limit)); [reflexivity | lia].
Qed.

(** C3, as the code has it.  The limit has an upper bound: List rejects
    every limit above 100, so 101, with status 422, whatever the offset;
    for every offset from 0 to 2^63 - 1 and every limit from 1 to 100 List
    succeeds; a limit left out is 10 and an offset left out 0. *)
Theorem read_clientes_limit_bound (st : table) (any : option Z) (offset limit : Z) :
  status RequestValidationError = 422
  /\ (100 < limit ->
      read_clientes any (Some limit) st = (st, Err RequestValidationError))
  /\ (0 <= offset <= 2 ^ 63 - 1 -> 1 <= limit <= 100 ->
      exists rows, read_clientes (Some offset) (Some limit) st = (st, Ok rows))
  /\ read_clientes any None st = read_clientes any (Some 10) st
  /\ read_clientes None (Some limit) st = read_clientes (Some 0) (Some limit) st.
Proof.
  split; [reflexivity |]. split; [| split; [| split; reflexivity]].
  - intros H. unfold read_clientes.
    destruct (Z.leb_spec limit 100); [lia | reflexivity].
  - intros Ho Hl. eexists. apply read_clientes_accepted; lia.
Qed.

Lemma read_clientes_limit_bound_witness :
  (100 < 101 /\ read_clientes None (Some 101) two_rows = (two_rows, Err RequestValidationError))
  /\ (0 <= 1 <= 2 ^ 63 - 1 /\ 1 <= 100 <= 100
      /\ exists rows, read_clientes (Some 1) (Some 100) two_rows = (two_rows, Ok rows)).
Proof.
  assert (Ho : 0 <= 1 <= 2 ^ 63 - 1) by (split; discriminate).
  assert (Hl : 1 <= 100 <= 100) by (split; discriminate).
  split.
  - split; [reflexivity |].
    apply (proj1 (proj2 (read_clientes_limit_bound two_rows None 1 101))). reflexivity.
  - split; [exact Ho | split; [exact Hl |]].
    exact (proj1 (proj2 (proj2 (read_clientes_limit_bound two_rows None 1 100))) Ho Hl).
Defined.

(** C3 with the range 1..100 and every offset from 0 on fails at both
    ends: a limit of 0 is not in 1..100 and List accepts it, with an empty
    page for an answer; and with the offset 2^63 and the limit 10 List
    fails, with the overflow error, status 500. *)
Lemma read_clientes_limit_zero_accepted :
  (~ (1 <= 0 <= 100)
   /\ read_clientes (Some 0) (Some 0) two_rows = (two_rows, Ok []))
  /\ (0 <= 2 ^ 63 /\ 1 <= 10 <= 100
      /\ read_clientes (Some (2 ^ 63)) (Some 10) two_rows = (two_rows, Err OverflowError)
      /\ status OverflowError = 500).
Proof.
  split; [split; [lia | reflexivity] |].
  split; [discriminate |]. split; [lia |]. split; reflexivity.
Qed.

(** ** Pagination and insertion order *)

Lemma fold_max_app l1 l2 a :
  fold_left Z.max (l1 ++ l2) a = fold_left Z.max l2 (fold_left Z.max l1 a).
Proof. apply fold_left_app. Qed.

(** After an insert the next rowid is one more. *)
Lemma next_rowid_snoc st r :
  Cliente.id r = next_rowid st -> next_rowid (st ++ [r]) = next_rowid st + 1.
Proof.
  destruct st as [| r0 st]; cbn [next_rowid app map fold_left]; intros H.
  - lia.
  - rewrite map_app, fold_max_app. cbn [map fold_left]. lia.
Qed.

Lemma numbered_length cs : forall i, List.length (numbered cs i) = List.length cs.
Proof. induction cs as [| c cs IH]; simpl; intros i; [| rewrite IH]; reflexivity. Qed.

Lemma numbered_nth_error cs : forall i k c,
  nth_error cs k = Some c ->
  nth_error (numbered cs i) k = Some (Cliente.model_validate c (i + Z.of_nat k)).
Proof.
  induction cs as [| c0 cs IH]; intros i k c H.
  - destruct k; discriminate.
  - destruct k as [| k]; cbn [nth_error numbered] in *.
    + injection H as ->. rewrite Z.add_0_r. reflexivity.
    + rewrite (IH (i + 1) k c H). do 2 f_equal. lia.
Qed.

Lemma has_email_app e st1 st2 :
  has_email e (st1 ++ st2) <-> has_email e st1 \/ has_email e st2.
Proof.
  rewrite !has_email_in_map, map_app. apply in_app_iff.
Qed.

(** Requests with emails that are new and differ from one another all
    succeed, and their rows are appended in the order of the requests. *)
Lemma create_all_fresh cs : forall st,
  NoDup (map ClienteBase.email cs) ->
  (forall c, In c cs -> ~ has_email (ClienteBase.email c) st) ->
  create_all cs st
  = (st ++ numbered cs (next_rowid st), map Ok (numbered cs (next_rowid st))).
Proof.
  induction cs as [| c cs IH]; intros st Hnd Hfresh; cbn [create_all numbered map].
  - rewrite app_nil_r. reflexivity.
  - inversion Hnd as [| ? ? Hc Hnd']; subst.
    rewrite (create_cliente_fresh c (Hfresh c (or_introl eq_refl))). cbv zeta.
    rewrite IH; [| assumption |].
    + rewrite next_rowid_snoc by reflexivity.
      rewrite <- app_assoc. reflexivity.
    + intros c' Hin Hhas. apply has_email_app in Hhas as [Hhas | Hhas].
      * exact (Hfresh c' (or_intror Hin) Hhas).
      * destruct Hhas as (r & [<- | []] & He). simpl in He.
        apply Hc. rewrite He. apply in_map. assumption.
Qed.

Lemma firstn_length_le {A} (l : list A) n : (List.length (firstn n l) <= n)%nat.
Proof. rewrite length_firstn. lia. Qed.

(** C9, as the code has it.  For an offset from 0 to 2^63 - 1 and a limit
    from 1 to 100, List answers with the rows that follow the first
    [offset] rows of the table, [limit] of them at most, in the order of
    the table.  That order is the order of insertion: after fifteen creates
    with different emails on an empty table the k-th row is the k-th input,
    and List with offset 0 and limit 10 answers with exactly the ten rows
    inserted first. *)
Theorem read_clientes_page (st : table) (offset limit : Z) (cs : list ClienteBase.t) :
  0 <= offset <= 2 ^ 63 - 1 -> 1 <= limit <= 100 ->
  List.length cs = 15%nat -> NoDup (map ClienteBase.email cs) ->
  (exists page,
     read_clientes (Some offset) (Some limit) st = (st, Ok page)
     /\ page = firstn (Z.to_nat limit) (skipn (Z.to_nat offset) st)
     /\ (List.length page <= Z.to_nat limit)%nat)
  /\ (exists rows,
        create_all cs [] = (rows, map Ok rows)
        /\ (forall k c, nth_error cs k = Some c ->
              nth_error rows k = Some (Cliente.model_validate c (Z.of_nat k + 1)))
        /\ read_clientes (Some 0) (Some 10) rows = (rows, Ok (firstn 10 rows))
        /\ List.length (firstn 10 rows) = 10%nat).
Proof.
  intros Hoff Hlim Hlen Hnd. split.
  - eexists. split; [| split; [reflexivity |]].
    + rewrite read_clientes_accepted by lia.
      unfold sql_limit, sql_offset.
      destruct (Z.ltb_spec limit 0); [lia | reflexivity].
    + apply firstn_length_le.
  - exists (numbered cs 1). split; [| split; [| split]].
    + apply (create_all_fresh cs (st := [])); [assumption |].
      intros c _ (r & [] & _).
    + intros k c H. rewrite (numbered_nth_error cs 1 k H).
      do 2 f_equal. lia.
    + reflexivity.
    + rewrite length_firstn, numbered_length, Hlen. reflexivity.
Qed.

(** C9 for every offset from 0 on fails past 64 bits: with the offset
    2^63, and the limit 10, List answers with no page but with the overflow
    error, status 500. *)
Lemma read_clientes_offset_too_large :
  0 <= 2 ^ 63 /\ 1 <= 10 <= 100
  /\ read_clientes (Some (2 ^ 63)) (Some 10) two_rows = (two_rows, Err OverflowError)
  /\ status OverflowError = 500.
Proof.
  split; [discriminate |]. split; [lia |]. split; reflexivity.
Qed.

Lemma fifteen_emails_differ : NoDup (map ClienteBase.email fifteen).
Proof.
  repeat (constructor;
          [ cbn; intros H;
            repeat (destruct H as [H | H]; [discriminate H |]); exact H |]).
  constructor.
Qed.

Lemma read_clientes_page_witness :
  (0 <= 1 <= 2 ^ 63 - 1 /\ 1 <= 1 <= 100
   /\ List.length fifteen = 15%nat /\ NoDup (map ClienteBase.email fifteen))
  /\ (exists page,
        read_clientes (Some 1) (Some 1) two_rows = (two_rows, Ok page)
        /\ page = firstn (Z.to_nat 1) (skipn (Z.to_nat 1) two_rows)
        /\ (List.length page <= Z.to_nat 1)%nat)
  /\ (exists rows,
        create_all fifteen [] = (rows, map Ok rows)
        /\ (forall k c, nth_error fifteen k = Some c ->
              nth_error rows k = Some (Cliente.model_validate c (Z.of_nat k + 1)))
        /\ read_clientes (Some 0) (Some 10) rows = (rows, Ok (firstn 10 rows))
        /\ List.length (firstn 10 rows) = 10%nat).
Proof.
  assert (Hoff : 0 <= 1 <= 2 ^ 63 - 1) by (split; discriminate).
  assert (Hlim : 1 <= 1 <= 100) by lia.
  split.
  - split; [exact Hoff |]. repeat split; try lia. exact fifteen_emails_differ.
  - exact (@read_clientes_page two_rows 1 1 fifteen Hoff Hlim eq_refl fifteen_emails_differ).
Defined.

Example fifteen_then_list :
  snd (read_clientes (Some 0) (Some 10) (fst (create_all fifteen [])))
  = Ok (numbered (map customer (seq 0 10)) 1).
Proof. reflexivity. Qed.

(** ** The unique index and the primary key are invariants *)

Lemma NoDup_snoc {A} (l : list A) a : NoDup l -> ~ In a l -> NoDup (l ++ [a]).
Proof.
  induction l as [| x l IH]; simpl; intros Hnd Hnotin.
  - constructor; [intros [] | constructor].
  - inversion Hnd as [| ? ? Hx Hnd']; subst. constructor.
    + rewrite in_app_iff. simpl. intros [H | [H | []]]; [auto |].
      apply Hnotin. left. symmetry. exact H.
    + apply IH; tauto.
Qed.

Lemma NoDup_map_filter {A B} (f : A -> B) (p : A -> bool) l :
  NoDup (map f l) -> NoDup (map f (filter p l)).
Proof.
  induction l as [| x l IH]; simpl; intros Hnd; [constructor |].
  inversion Hnd as [| ? ? Hx Hnd']; subst.
  destruct (p x); simpl; [constructor |]; auto.
  intros H. apply Hx. apply in_map_iff in H as (y & Hy & Hin).
  apply filter_In in Hin as [Hin _]. rewrite <- Hy. apply in_map. exact Hin.
Qed.

Lemma StronglySorted_snoc l a :
  StronglySorted Z.lt l -> (forall x, In x l -> x < a) -> StronglySorted Z.lt (l ++ [a]).
Proof.
  induction l as [| x l IH]; simpl; intros Hs Hlt.
  - repeat constructor.
  - inversion Hs as [| ? ? Hs' Hall]; subst. constructor.
    + apply IH; auto.
    + apply Forall_app. split; [assumption |].
      constructor; [apply Hlt; left; reflexivity | constructor].
Qed.

Lemma StronglySorted_map_filter (p : Cliente.t -> bool) st :
  ids_ascending st -> ids_ascending (filter p st).
Proof.
  unfold ids_ascending. induction st as [| x st IH]; simpl; intros Hs; [constructor |].
  inversion Hs as [| ? ? Hs' Hall]; subst.
  destruct (p x); simpl; [constructor |]; auto.
  rewrite Forall_forall in *. intros y Hy. apply Hall.
  apply in_map_iff in Hy as (r & Hr & Hin).
  apply filter_In in Hin as [Hin _]. rewrite <- Hr. apply in_map. exact Hin.
Qed.

Lemma ids_ascending_unique st : ids_ascending st -> ids_unique st.
Proof.
  unfold ids_ascending, ids_unique. generalize (map Cliente.id st) as l.
  induction l as [| x l IH]; intros Hs; [constructor |].
  inversion Hs as [| ? ? Hs' Hall]; subst. constructor; [| auto].
  intros Hin. rewrite Forall_forall in Hall. specialize (Hall x Hin). lia.
Qed.

Lemma email_taken_false e i st :
  email_taken e i st = false ->
  forall x, In x st -> Cliente.id x <> i -> Cliente.email x <> e.
Proof.
  unfold email_taken. intros H x Hin Hid He.
  assert (Ht : existsb (fun r => negb (Cliente.id r =? i) && String.eqb (Cliente.email r) e) st = true).
  { apply existsb_exists. exists x. split; [assumption |].
    apply andb_true_iff. split.
    - apply negb_true_iff. apply Z.eqb_neq. assumption.
    - apply String.eqb_eq. assumption. }
  congruence.
Qed.

(** An UPDATE keeps the ids of the rows. *)
Lemma replace_ids r st :
  map Cliente.id (map (fun x => if Cliente.id x =? Cliente.id r then r else x) st)
  = map Cliente.id st.
Proof.
  rewrite map_map. apply map_ext. intros x.
  destruct (Z.eqb_spec (Cliente.id x) (Cliente.id r)); congruence.
Qed.

(** An UPDATE that passed the unique index leaves no email twice. *)
Lemma replace_emails_unique r st :
  ids_unique st -> emails_unique st ->
  (forall x, In x st -> Cliente.id x <> Cliente.id r -> Cliente.email x <> Cliente.email r) ->
  emails_unique (map (fun x => if Cliente.id x =? Cliente.id r then r else x) st).
Proof.
  unfold ids_unique, emails_unique.
  induction st as [| x st IH]; cbn [map]; intros Hids Hems Hfree; [constructor |].
  inversion Hids as [| ? ? Hid Hids']; subst.
  inversion Hems as [| ? ? Hem Hems']; subst.
  constructor.
  - intros Hin. apply in_map_iff in Hin as (y' & Hy' & Hin).
    apply in_map_iff in Hin as (y & <- & Hin).
    destruct (Z.eqb_spec (Cliente.id x) (Cliente.id r)) as [Hx | Hx];
      destruct (Z.eqb_spec (Cliente.id y) (Cliente.id r)) as [Hy | Hy].
    + apply Hid. rewrite Hx, <- Hy. apply in_map. exact Hin.
    + exact (Hfree y (or_intror Hin) Hy Hy').
    + apply (Hfree x (or_introl eq_refl) Hx). symmetry. exact Hy'.
    + apply Hem. rewrite <- Hy'. apply in_map. exact Hin.
  - apply IH; auto. intros y Hy. apply Hfree. right. exact Hy.
Qed.

Lemma create_cliente_consistent c st :
  consistent st -> consistent (fst (create_cliente c st)).
Proof.
  intros [Hids Hems].
  destruct (has_email_dec (ClienteBase.email c) st) as [Hin | Hno].
  - rewrite (create_cliente_taken c Hin). split; assumption.
  - rewrite (create_cliente_fresh c Hno). cbn [fst]. split.
    + unfold ids_ascending. rewrite map_app. apply StronglySorted_snoc; [assumption |].
      intros x Hx. apply in_map_iff in Hx as (r & <- & Hr).
      apply (next_rowid_above _ _ Hr).
    + unfold emails_unique. rewrite map_app. apply NoDup_snoc; [assumption |].
      intros Hin. apply Hno. apply has_email_in_map. exact Hin.
Qed.

Lemma update_cliente_consistent i c st :
  consistent st -> consistent (fst (update_cliente i c st)).
Proof.
  intros [Hids Hems]. unfold update_cliente, bind, session_get.
  destruct (lookup i st) as [r |]; [| destruct (int64 i); split; assumption].
  set (r' := Cliente.sqlmodel_update r (ClienteBase.model_dump_exclude_unset c)).
  unfold add_commit_dirty.
  destruct (email_taken (Cliente.email r') (Cliente.id r') st) eqn:E; [split; assumption |].
  assert (consistent (map (fun x => if Cliente.id x =? Cliente.id r' then r' else x) st)) as Hc.
  { split.
    - unfold ids_ascending. rewrite replace_ids. assumption.
    - apply replace_emails_unique; [apply ids_ascending_unique | |]; try assumption.
      apply (@email_taken_false _ _ _ E). }
  unfold refresh. destruct (lookup _ _); exact Hc.
Qed.

Lemma delete_cliente_consistent i st :
  consistent st -> consistent (fst (delete_cliente i st)).
Proof.
  intros [Hids Hems]. unfold delete_cliente, bind, session_get.
  destruct (lookup i st) as [r |]; [| destruct (int64 i); split; assumption].
  cbn [delete_commit ret fst]. split.
  - apply StronglySorted_map_filter. assumption.
  - apply NoDup_map_filter. assumption.
Qed.

(** Every request keeps the table consistent. *)
Lemma step_consistent st req : consistent st -> consistent (step st req).
Proof.
  intros H. destruct req as [body | offset limit | i | i body | i]; cbn [step].
  - unfold post_clientes. destruct (Body.validate body);
      [apply create_cliente_consistent |]; exact H.
  - rewrite (proj2 (read_only_handlers st)). exact H.
  - rewrite (proj1 (read_only_handlers st)). exact H.
  - unfold patch_cliente. destruct (Body.validate body);
      [apply update_cliente_consistent |]; exact H.
  - apply delete_cliente_consistent. exact H.
Qed.

Lemma reachable_consistent st : reachable st -> consistent st.
Proof.
  induction 1 as [| st req _ IH].
  - split; constructor.
  - apply step_consistent. exact IH.
Qed.

Lemma reachable_run reqs : forall st, reachable st -> reachable (run st reqs).
Proof.
  induction reqs as [| req reqs IH]; intros st H; [exact H |].
  apply IH. constructor. exact H.
Qed.

(** C2. Email uniqueness is an invariant: in every table that a sequence
    of Create, List, Get, Update and Delete requests leads to from the
    empty table, no two rows have the same email. *)
Theorem reachable_emails_unique (st : table) :
  reachable st -> emails_unique st.
Proof. intros H. exact (proj2 (reachable_consistent H)). Qed.

Lemma reachable_emails_unique_witness :
  reachable (run [] [Create ana_body; Create bia_body;
                     Update 2 (FieldsDict.mk (Some "Bia") (Some "ana@crm.br") None None);
                     List None None; Get 1; Delete 1; Update 2 ana_body])
  /\ emails_unique [Cliente.mk 2 "Ana" "ana@crm.br" (Some "1111") (Some "ACME")].
Proof.
  assert (Hr : reachable (run [] [Create ana_body; Create bia_body;
                     Update 2 (FieldsDict.mk (Some "Bia") (Some "ana@crm.br") None None);
                     List None None; Get 1; Delete 1; Update 2 ana_body])).
  { apply reachable_run. constructor. }
  split; [exact Hr | exact (@reachable_emails_unique _ Hr)].
Defined.

(** ** Update *)

Lemma lookup_replaced i st r r' :
  lookup i st = Some r -> Cliente.id r' = i ->
  lookup i (map (fun x => if Cliente.id x =? i then r' else x) st) = Some r'.
Proof.
  unfold lookup. intros H Hid.
  induction st as [| x st IH]; cbn [map find] in *; [discriminate |].
  destruct (Z.eqb_spec (Cliente.id x) i) as [Hx | Hx].
  - rewrite Hid, Z.eqb_refl. reflexivity.
  - destruct (Z.eqb_spec (Cliente.id x) i); [contradiction | auto].
Qed.

(** A body that passed validation: the row is found again with the values
    of the body in the fields the body has, and its old values in the
    others; no other row changes. *)
Lemma update_cliente_merges i c st r :
  lookup i st = Some r ->
  email_taken (ClienteBase.email c) i st = false ->
  let r' := Cliente.mk i (ClienteBase.nome c) (ClienteBase.email c)
              (match ClienteBase.telefone c with Some v => v | None => Cliente.telefone r end)
              (match ClienteBase.empresa c with Some v => v | None => Cliente.empresa r end) in
  update_cliente i c st
  = (map (fun x => if Cliente.id x =? i then r' else x) st, Ok r').
Proof.
  intros Hget Hfree r'.
  pose proof (lookup_some _ _ Hget) as [_ Hid].
  unfold update_cliente, bind, session_get. rewrite Hget.
  unfold Cliente.sqlmodel_update, ClienteBase.model_dump_exclude_unset.
  cbn [FieldsDict.nome FieldsDict.email FieldsDict.telefone FieldsDict.empresa].
  rewrite Hid. fold r'.
  unfold add_commit_dirty.
  change (Cliente.email r') with (ClienteBase.email c).
  change (Cliente.id r') with i.
  rewrite Hfree. unfold refresh.
  rewrite (@lookup_replaced i st r r' Hget eq_refl). reflexivity.
Qed.

(** A body without [nome] or without [email] does not reach the handler. *)
Lemma patch_cliente_requires_nome_email i body st :
  FieldsDict.nome body = None \/ FieldsDict.email body = None ->
  patch_cliente i body st = (st, Err RequestValidationError).
Proof.
  unfold patch_cliente. rewrite validate_of_dict. unfold ClienteBase.validate.
  intros [-> | ->]; [| destruct (FieldsDict.nome body)]; reflexivity.
Qed.

(** [sqlmodel_update] itself would merge a dict with the phone alone. *)
Example sqlmodel_update_phone_only :
  Cliente.sqlmodel_update ana_row (phone_only (Some "9999"))
  = Cliente.mk 1 "Ana" "ana@crm.br" (Some "9999") (Some "ACME").
Proof. reflexivity. Qed.

(** C1. Updating only the phone: a PATCH for the existing customer 1
    whose body has the phone and nothing else.  The body is
    validated against [ClienteBase], where [nome] and [email] are required,
    so the request ends with status 422 before the handler runs, and the
    stored phone is the old one. *)
Theorem patch_phone_only_rejected :
  lookup 1 one_row = Some ana_row
  /\ patch_cliente 1 (phone_only (Some "9999")) one_row
     = (one_row, Err RequestValidationError)
  /\ status RequestValidationError = 422
  /\ option_map Cliente.telefone
       (lookup 1 (fst (patch_cliente 1 (phone_only (Some "9999")) one_row)))
     = Some (Some "1111").
Proof. repeat split. Qed.

(** * Further properties of the handlers *)

(** ** Update on an existing id *)

Lemma email_taken_true e i st :
  email_taken e i st = true <->
  exists x, In x st /\ Cliente.id x <> i /\ Cliente.email x = e.
Proof.
  unfold email_taken. rewrite existsb_exists. split.
  - intros (x & Hin & Hx). apply andb_true_iff in Hx as [Hid He].
    exists x. repeat split; [assumption | | apply String.eqb_eq; assumption].
    apply negb_true_iff in Hid. apply Z.eqb_neq. assumption.
  - intros (x & Hin & Hid & He). exists x. split; [assumption |].
    apply andb_true_iff. split; [| apply String.eqb_eq; assumption].
    apply negb_true_iff. apply Z.eqb_neq. assumption.
Qed.

Lemma lookup_in_ids i st : In i (map Cliente.id st) -> exists r, lookup i st = Some r.
Proof.
  intros H. destruct (lookup i st) as [r |] eqn:E; [eauto |].
  apply lookup_none in E. contradiction.
Qed.

(** The unique index looks at the rows of the other ids only. *)
Lemma email_taken_replaced e i r' st :
  Cliente.id r' = i ->
  email_taken e i (map (fun x => if Cliente.id x =? i then r' else x) st)
  = email_taken e i st.
Proof.
  intros Hid. unfold email_taken.
  induction st as [| x st IH]; cbn [map existsb]; [reflexivity |].
  rewrite IH. f_equal.
  destruct (Cliente.id x =? i) eqn:Hx; [| rewrite Hx; reflexivity].
  rewrite Hid, Z.eqb_refl. reflexivity.
Qed.

Lemma replace_replaced i r' st :
  Cliente.id r' = i ->
  map (fun x => if Cliente.id x =? i then r' else x)
      (map (fun x => if Cliente.id x =? i then r' else x) st)
  = map (fun x => if Cliente.id x =? i then r' else x) st.
Proof.
  intros Hid. rewrite map_map. apply map_ext. intros x.
  destruct (Z.eqb_spec (Cliente.id x) i) as [Hx | Hx].
  - rewrite Hid, Z.eqb_refl. reflexivity.
  - destruct (Z.eqb_spec (Cliente.id x) i); [contradiction | reflexivity].
Qed.

Lemma replace_keeps_other i r' st x :
  In x st -> Cliente.id x <> i ->
  In x (map (fun y => if Cliente.id y =? i then r' else y) st).
Proof.
  intros Hin Hid. apply in_map_iff. exists x. split; [| assumption].
  destruct (Z.eqb_spec (Cliente.id x) i); [contradiction | reflexivity].
Qed.

(** The three ways an update can end. *)
Lemma update_cliente_cases i c st :
  update_cliente i c st = (st, Err (if int64 i then NotFound else OverflowError))
  \/ update_cliente i c st = (st, Err IntegrityError)
  \/ exists r r',
       lookup i st = Some r
       /\ email_taken (ClienteBase.email c) i st = false
       /\ Cliente.id r' = i
       /\ update_cliente i c st
          = (map (fun x => if Cliente.id x =? i then r' else x) st, Ok r').
Proof.
  destruct (lookup i st) as [r |] eqn:Hget.
  - destruct (email_taken (ClienteBase.email c) i st) eqn:Hfree.
    + right. left. pose proof (lookup_some _ _ Hget) as [_ Hid].
      unfold update_cliente, bind, session_get, add_commit_dirty. rewrite Hget.
      cbn [Cliente.sqlmodel_update ClienteBase.model_dump_exclude_unset
           Cliente.id Cliente.email FieldsDict.email].
      rewrite Hid, Hfree. reflexivity.
    + right. right. eexists r, _. split; [reflexivity |]. split; [reflexivity |].
      split; [| apply (@update_cliente_merges i c st r Hget Hfree)]. reflexivity.
  - left. apply update_cliente_missing. exact Hget.
Qed.

(** X1. Update on an existing id with an email no other row holds: the
    call succeeds; the returned row has the id of the request, [nome] and
    [email] of the body, and for [telefone] and [empresa] the value of the
    body where the body has the field and the stored value where it has
    not.  The table keeps its ids in their order and every row of another
    id as it was. *)
Theorem update_cliente_applies (st : table) (i : Z) (c : ClienteBase.t) (r : Cliente.t) :
  lookup i st = Some r ->
  email_taken (ClienteBase.email c) i st = false ->
  exists st' r',
    update_cliente i c st = (st', Ok r')
    /\ Cliente.id r' = i
    /\ Cliente.nome r' = ClienteBase.nome c
    /\ Cliente.email r' = ClienteBase.email c
    /\ Cliente.telefone r'
       = match ClienteBase.telefone c with Some v => v | None => Cliente.telefone r end
    /\ Cliente.empresa r'
       = match ClienteBase.empresa c with Some v => v | None => Cliente.empresa r end
    /\ map Cliente.id st' = map Cliente.id st
    /\ (forall x, In x st -> Cliente.id x <> i -> In x st').
Proof.
  intros Hget Hfree.
  pose proof (@update_cliente_merges i c st r Hget Hfree) as Hup. cbv zeta in Hup.
  eexists _, _. split; [exact Hup |].
  repeat split; try reflexivity.
  - set (r' := Cliente.mk i _ _ _ _).
    change i with (Cliente.id r') at 1. apply replace_ids.
  - intros x Hin Hid. apply replace_keeps_other; assumption.
Qed.

Lemma update_cliente_applies_witness :
  lookup 2 two_rows = Some bia_row
  /\ email_taken "bia@crm.br" 2 two_rows = false
  /\ exists st' r',
       update_cliente 2 (ClienteBase.mk "Beatriz" "bia@crm.br" (Some (Some "2222")) None)
                      two_rows = (st', Ok r')
       /\ Cliente.id r' = 2
       /\ Cliente.nome r' = "Beatriz"
       /\ Cliente.email r' = "bia@crm.br"
       /\ Cliente.telefone r' = Some "2222"
       /\ Cliente.empresa r' = Cliente.empresa bia_row
       /\ map Cliente.id st' = map Cliente.id two_rows
       /\ (forall x, In x two_rows -> Cliente.id x <> 2 -> In x st').
Proof.
  split; [reflexivity |]. split; [reflexivity |].
  exact (@update_cliente_applies two_rows 2
           (ClienteBase.mk "Beatriz" "bia@crm.br" (Some (Some "2222")) None)
           bia_row eq_refl eq_refl).
Defined.

(** X2. Update on an existing id with the email of a row of another id:
    the handler has no check of its own, the unique index refuses the
    commit; the call ends in an integrity error, status 500, and the table
    is as it was. *)
Theorem update_cliente_email_conflict (st : table) (i : Z) (c : ClienteBase.t)
        (x : Cliente.t) :
  In i (map Cliente.id st) ->
  In x st -> Cliente.id x <> i -> Cliente.email x = ClienteBase.email c ->
  update_cliente i c st = (st, Err IntegrityError)
  /\ status IntegrityError = 500.
Proof.
  intros Hi Hin Hid He. split; [| reflexivity].
  assert (Htaken : email_taken (ClienteBase.email c) i st = true).
  { apply email_taken_true. exists x. auto. }
  apply lookup_in_ids in Hi as (r & Hget).
  pose proof (lookup_some _ _ Hget) as [_ Hr].
  unfold update_cliente, bind, session_get, add_commit_dirty. rewrite Hget.
  cbn [Cliente.sqlmodel_update ClienteBase.model_dump_exclude_unset
       Cliente.id Cliente.email FieldsDict.email].
  rewrite Hr, Htaken. reflexivity.
Qed.

Lemma update_cliente_email_conflict_witness :
  (In 2 (map Cliente.id two_rows) /\ In ana_row two_rows
   /\ Cliente.id ana_row <> 2
   /\ Cliente.email ana_row = ClienteBase.email (ClienteBase.mk "Bia" "ana@crm.br" None None))
  /\ update_cliente 2 (ClienteBase.mk "Bia" "ana@crm.br" None None) two_rows
     = (two_rows, Err IntegrityError)
  /\ status IntegrityError = 500.
Proof.
  assert (Hi : In 2 (map Cliente.id two_rows)) by (right; left; reflexivity).
  assert (Hin : In ana_row two_rows) by (left; reflexivity).
  assert (Hid : Cliente.id ana_row <> 2) by discriminate.
  split; [repeat split; assumption |].
  exact (@update_cliente_email_conflict two_rows 2
           (ClienteBase.mk "Bia" "ana@crm.br" None None) ana_row Hi Hin Hid eq_refl).
Defined.

(** X3. Update is idempotent: the same request sent a second time is
    answered as the first time, with the same row or the same error, and
    leaves the table as the first one left it. *)
Theorem update_cliente_twice (st : table) (i : Z) (c : ClienteBase.t) :
  update_cliente i c (fst (update_cliente i c st))
  = (fst (update_cliente i c st), snd (update_cliente i c st)).
Proof.
  destruct (update_cliente_cases i c st)
    as [H | [H | (r & r' & Hget & Hfree & Hid & H)]].
  - rewrite H. cbn [fst snd]. exact H.
  - rewrite H. cbn [fst snd]. exact H.
  - rewrite H. cbn [fst snd].
    set (st1 := map (fun x => if Cliente.id x =? i then r' else x) st).
    assert (Hget1 : lookup i st1 = Some r') by (apply (@lookup_replaced i st r r' Hget Hid)).
    assert (Hfree1 : email_taken (ClienteBase.email c) i st1 = false).
    { unfold st1. rewrite email_taken_replaced; assumption. }
    rewrite (@update_cliente_merges i c st1 r' Hget1 Hfree1).
    pose proof (@update_cliente_merges i c st r Hget Hfree) as H0. cbv zeta in H0.
    rewrite H in H0. injection H0 as _ Hr'.
    assert (Hsame : Cliente.mk i (ClienteBase.nome c) (ClienteBase.email c)
              (match ClienteBase.telefone c with Some v => v | None => Cliente.telefone r' end)
              (match ClienteBase.empresa c with Some v => v | None => Cliente.empresa r' end)
            = r').
    { rewrite Hr'. cbn [Cliente.telefone Cliente.empresa].
      destruct (ClienteBase.telefone c), (ClienteBase.empresa c); reflexivity. }
    rewrite Hsame. unfold st1. rewrite replace_replaced by assumption. reflexivity.
Qed.

(** X4. Whatever an update does, it leaves the ids of the table as they
    were, in their order: no row is added or removed and no id changes. *)
Theorem update_cliente_keeps_ids (st : table) (i : Z) (c : ClienteBase.t) :
  map Cliente.id (fst (update_cliente i c st)) = map Cliente.id st.
Proof.
  destruct (update_cliente_cases i c st)
    as [H | [H | (r & r' & _ & _ & Hid & H)]]; rewrite H; cbn [fst];
    try reflexivity.
  subst i. apply replace_ids.
Qed.

(** X5. When Update succeeds, Get on the same id answers with the row
    Update returned, and that row has the id of the request. *)
Theorem update_then_read (st st' : table) (i : Z) (c : ClienteBase.t) (r' : Cliente.t) :
  update_cliente i c st = (st', Ok r') ->
  Cliente.id r' = i /\ read_cliente i st' = (st', Ok r').
Proof.
  intros Hup.
  destruct (update_cliente_cases i c st)
    as [H | [H | (r & r0 & Hget & _ & Hid & H)]]; rewrite H in Hup;
    try discriminate.
  injection Hup as <- <-. split; [assumption |].
  unfold read_cliente, bind, session_get.
  rewrite (@lookup_replaced i st r r0 Hget Hid). reflexivity.
Qed.

Lemma update_then_read_witness :
  update_cliente 2 ana_alias two_rows
  = ([ana_row; Cliente.mk 2 "Ana B" "anab@crm.br" None (Some "ACME")],
     Ok (Cliente.mk 2 "Ana B" "anab@crm.br" None (Some "ACME")))
  /\ Cliente.id (Cliente.mk 2 "Ana B" "anab@crm.br" None (Some "ACME")) = 2
  /\ read_cliente 2 [ana_row; Cliente.mk 2 "Ana B" "anab@crm.br" None (Some "ACME")]
     = ([ana_row; Cliente.mk 2 "Ana B" "anab@crm.br" None (Some "ACME")],
        Ok (Cliente.mk 2 "Ana B" "anab@crm.br" None (Some "ACME"))).
Proof.
  split; [reflexivity |].
  exact (@update_then_read two_rows _ 2 ana_alias _ eq_refl).
Defined.

(** ** Writes on one id and reads of another *)

Lemma lookup_replace_other i j r' st :
  j <> i -> Cliente.id r' = i ->
  lookup j (map (fun x => if Cliente.id x =? i then r' else x) st) = lookup j st.
Proof.
  intros Hj Hid. unfold lookup.
  induction st as [| x st IH]; cbn [map find]; [reflexivity |].
  destruct (Z.eqb_spec (Cliente.id x) i) as [Hx | Hx].
  - rewrite Hid, IH.
    destruct (Z.eqb_spec i j); [congruence |].
    destruct (Z.eqb_spec (Cliente.id x) j); [congruence | reflexivity].
  - rewrite IH. reflexivity.
Qed.

Lemma lookup_filter_neq i j st :
  j <> i -> lookup j (filter (fun x => negb (Cliente.id x =? i)) st) = lookup j st.
Proof.
  intros Hj. unfold lookup.
  induction st as [| x st IH]; cbn [filter find]; [reflexivity |].
  destruct (Z.eqb_spec (Cliente.id x) i) as [Hx | Hx]; cbn [negb find].
  - rewrite IH. destruct (Z.eqb_spec (Cliente.id x) j); [congruence | reflexivity].
  - rewrite IH. reflexivity.
Qed.

Lemma delete_cliente_table i st :
  fst (delete_cliente i st)
  = match lookup i st with
    | Some _ => filter (fun x => negb (Cliente.id x =? i)) st
    | None => st
    end.
Proof.
  destruct (lookup i st) as [r |] eqn:Hget.
  - unfold delete_cliente, bind, delete_commit.
    rewrite (session_get_found _ _ Hget).
    apply lookup_some in Hget as [_ ->]. reflexivity.
  - rewrite (delete_cliente_missing _ _ Hget). reflexivity.
Qed.

Lemma read_cliente_response j st :
  snd (read_cliente j st)
  = match lookup j st with
    | Some r => Ok r
    | None => Err (if int64 j then NotFound else OverflowError)
    end.
Proof.
  unfold read_cliente, bind, session_get.
  destruct (lookup j st); [reflexivity |]. destruct (int64 j); reflexivity.
Qed.

(** X6. A write on one id does not show on another: after Update or
    Delete on id [i], failed or not, Get on any other id answers as it did
    before. *)
Theorem other_ids_untouched (st : table) (i j : Z) (c : ClienteBase.t) :
  j <> i ->
  snd (read_cliente j (fst (update_cliente i c st))) = snd (read_cliente j st)
  /\ snd (read_cliente j (fst (delete_cliente i st))) = snd (read_cliente j st).
Proof.
  intros Hj. rewrite !read_cliente_response. split.
  - destruct (update_cliente_cases i c st)
      as [H | [H | (r & r' & _ & _ & Hid & H)]]; rewrite H; cbn [fst];
      try reflexivity.
    rewrite (@lookup_replace_other i j r' st Hj Hid). reflexivity.
  - rewrite delete_cliente_table.
    destruct (lookup i st); [| reflexivity].
    rewrite (@lookup_filter_neq i j st Hj). reflexivity.
Qed.

Lemma other_ids_untouched_witness :
  1 <> 2
  /\ snd (read_cliente 1 (fst (update_cliente 2 ana_alias two_rows))) = Ok ana_row
  /\ snd (read_cliente 1 (fst (delete_cliente 2 two_rows))) = Ok ana_row.
Proof.
  assert (H : 1 <> 2) by discriminate.
  split; [exact H | exact (@other_ids_untouched two_rows 2 1 ana_alias H)].
Defined.

Lemma lookup_app_existing j st l :
  In j (map Cliente.id st) -> lookup j (st ++ l) = lookup j st.
Proof.
  unfold lookup. induction st as [| x st IH]; cbn [map In app find]; [intros [] |].
  intros [Hx | Hin].
  - rewrite Hx, Z.eqb_refl. reflexivity.
  - destruct (Cliente.id x =? j); [reflexivity | auto].
Qed.

(** X7. Create, failed or not, does not show on the rows that are there:
    Get on an id of the table answers after it as before. *)
Theorem create_keeps_existing (st : table) (c : ClienteBase.t) (j : Z) :
  In j (map Cliente.id st) ->
  snd (read_cliente j (fst (create_cliente c st))) = snd (read_cliente j st).
Proof.
  intros Hj. rewrite !read_cliente_response.
  destruct (has_email_dec (ClienteBase.email c) st) as [Hin | Hno].
  - rewrite (create_cliente_taken c Hin). reflexivity.
  - rewrite (create_cliente_fresh c Hno). cbn [fst].
    rewrite (@lookup_app_existing j st _ Hj). reflexivity.
Qed.

Lemma create_keeps_existing_witness :
  In 1 (map Cliente.id one_row)
  /\ snd (read_cliente 1 (fst (create_cliente bia one_row))) = Ok ana_row.
Proof.
  assert (H : In 1 (map Cliente.id one_row)) by (left; reflexivity).
  split; [exact H | exact (@create_keeps_existing one_row bia 1 H)].
Defined.

(** ** Delete *)

(** X8. Delete is not repeatable: whatever the first Delete on an id
    did, a second one on the same id fails and leaves the table as the
    first one left it; it fails with NotFound when the id is within 64
    bits, and with the overflow error, status 500, when it is not. *)
Theorem delete_cliente_twice (st : table) (i : Z) :
  delete_cliente i (fst (delete_cliente i st))
  = (fst (delete_cliente i st),
     Err (if int64 i then NotFound else OverflowError))
  /\ status NotFound = 404 /\ status OverflowError = 500.
Proof.
  split; [| split; reflexivity].
  rewrite delete_cliente_table.
  destruct (lookup i st) eqn:Hget.
  - apply delete_cliente_missing. apply lookup_filter_other.
  - apply delete_cliente_missing. exact Hget.
Qed.

Lemma filter_all_true {A} (p : A -> bool) l :
  (forall x, In x l -> p x = true) -> filter p l = l.
Proof.
  induction l as [| x l IH]; cbn [filter]; intros H; [reflexivity |].
  rewrite (H x (or_introl eq_refl)), IH; [reflexivity |].
  intros y Hy. apply H. right. exact Hy.
Qed.

(** X9. Create, then Delete on the id Create returned, gives back the
    table there was before the two, on any table; so the next Create is
    given the id of the row that was deleted. *)
Theorem create_then_delete (st : table) (c c' : ClienteBase.t) :
  ~ has_email (ClienteBase.email c) st ->
  ~ has_email (ClienteBase.email c') st ->
  exists st1 r,
    create_cliente c st = (st1, Ok r)
    /\ delete_cliente (Cliente.id r) st1
       = (st, Ok [("message", "Cliente deletado com sucesso")])
    /\ exists st2 r', create_cliente c' st = (st2, Ok r') /\ Cliente.id r' = Cliente.id r.
Proof.
  intros Hc Hc'.
  exists (st ++ [Cliente.model_validate c (next_rowid st)]),
         (Cliente.model_validate c (next_rowid st)).
  split; [apply (create_cliente_fresh c Hc) | split].
  - unfold delete_cliente, bind, session_get, delete_commit, ret.
    rewrite lookup_appended by apply next_rowid_fresh.
    cbn [Cliente.model_validate Cliente.id].
    rewrite filter_app. cbn [filter Cliente.id]. rewrite Z.eqb_refl. cbn [negb].
    rewrite app_nil_r, filter_all_true; [reflexivity |].
    intros x Hx. apply negb_true_iff. apply Z.eqb_neq.
    pose proof (next_rowid_above _ _ Hx). lia.
  - eexists _, _. split; [apply (create_cliente_fresh c' Hc') | reflexivity].
Qed.

Lemma create_then_delete_witness :
  (~ has_email (ClienteBase.email bia) one_row
   /\ ~ has_email (ClienteBase.email ana_alias) one_row)
  /\ exists st1 r,
       create_cliente bia one_row = (st1, Ok r)
       /\ delete_cliente (Cliente.id r) st1
          = (one_row, Ok [("message", "Cliente deletado com sucesso")])
       /\ exists st2 r',
            create_cliente ana_alias one_row = (st2, Ok r')
            /\ Cliente.id r' = Cliente.id r.
Proof.
  assert (H1 : ~ has_email (ClienteBase.email bia) one_row).
  { apply select_first_none. reflexivity. }
  assert (H2 : ~ has_email (ClienteBase.email ana_alias) one_row).
  { apply select_first_none. reflexivity. }
  split; [split; assumption |].
  exact (@create_then_delete one_row bia ana_alias H1 H2).
Defined.

(** Two rows of a list that agree on a key without repetition are the
    same row. *)
Lemma NoDup_map_same {A B} (f : A -> B) l x y :
  NoDup (map f l) -> In x l -> In y l -> f x = f y -> x = y.
Proof.
  induction l as [| a l IH]; cbn [map In]; intros Hnd Hx Hy Hf; [contradiction |].
  inversion Hnd as [| ? ? Ha Hnd']; subst.
  destruct Hx as [-> | Hx], Hy as [-> | Hy]; auto.
  - exfalso. apply Ha. rewrite Hf. apply in_map. exact Hy.
  - exfalso. apply Ha. rewrite <- Hf. apply in_map. exact Hx.
Qed.

(** X10. A hard delete frees the email: in a table with no email twice,
    once the row of an id is deleted, a Create with the email that row had
    succeeds. *)
Theorem delete_frees_email (st : table) (i : Z) (r : Cliente.t) (c : ClienteBase.t) :
  emails_unique st ->
  lookup i st = Some r ->
  ClienteBase.email c = Cliente.email r ->
  exists st' r',
    create_cliente c (fst (delete_cliente i st)) = (st', Ok r')
    /\ Cliente.email r' = Cliente.email r.
Proof.
  intros Huniq Hget He.
  rewrite delete_cliente_table, Hget.
  pose proof (lookup_some _ _ Hget) as [Hin Hid].
  assert (Hno : ~ has_email (ClienteBase.email c)
                  (filter (fun x => negb (Cliente.id x =? i)) st)).
  { intros (x & Hx & Hxe). apply filter_In in Hx as [Hx Hneq].
    rewrite He in Hxe.
    pose proof (NoDup_map_same Cliente.email st x r Huniq Hx Hin Hxe) as ->.
    rewrite Hid, Z.eqb_refl in Hneq. discriminate. }
  eexists _, _. split; [apply (create_cliente_fresh c Hno) |].
  cbn [Cliente.model_validate Cliente.email]. exact He.
Qed.

Lemma two_rows_emails_unique : emails_unique two_rows.
Proof.
  unfold emails_unique. cbn.
  constructor; [intros [H | []]; discriminate |].
  constructor; [intros [] | constructor].
Qed.

Lemma two_rows_ids_ascending : ids_ascending two_rows.
Proof.
  unfold ids_ascending. cbn. repeat constructor.
Qed.

Lemma delete_frees_email_witness :
  (emails_unique two_rows /\ lookup 1 two_rows = Some ana_row
   /\ ClienteBase.email ana = Cliente.email ana_row)
  /\ exists st' r',
       create_cliente ana (fst (delete_cliente 1 two_rows)) = (st', Ok r')
       /\ Cliente.email r' = Cliente.email ana_row.
Proof.
  split; [split; [exact two_rows_emails_unique | split; reflexivity] |].
  exact (@delete_frees_email two_rows 1 ana_row ana
           two_rows_emails_unique eq_refl eq_refl).
Defined.

(** ** Update with the stored values *)

(** X11. An update that asks for what is stored changes nothing: in a
    consistent table, when the merge of the body into the row of the id is
    that row again, the call succeeds with that row and the table is as it
    was.  The row does not run into the unique index on its own email. *)
Theorem update_cliente_same_values (st : table) (i : Z) (c : ClienteBase.t)
        (r : Cliente.t) :
  consistent st ->
  lookup i st = Some r ->
  Cliente.sqlmodel_update r (ClienteBase.model_dump_exclude_unset c) = r ->
  update_cliente i c st = (st, Ok r).
Proof.
  intros [Hids Hems] Hget Hsame.
  apply ids_ascending_unique in Hids.
  pose proof (lookup_some _ _ Hget) as [Hin Hid].
  assert (Hemail : ClienteBase.email c = Cliente.email r).
  { exact (f_equal Cliente.email Hsame). }
  assert (Hfree : email_taken (ClienteBase.email c) i st = false).
  { destruct (email_taken (ClienteBase.email c) i st) eqn:E; [| reflexivity].
    apply email_taken_true in E as (x & Hx & Hxid & Hxe).
    rewrite Hemail in Hxe.
    pose proof (NoDup_map_same Cliente.email st x r Hems Hx Hin Hxe). congruence. }
  rewrite (@update_cliente_merges i c st r Hget Hfree).
  unfold Cliente.sqlmodel_update, ClienteBase.model_dump_exclude_unset in Hsame.
  cbn [FieldsDict.nome FieldsDict.email FieldsDict.telefone FieldsDict.empresa] in Hsame.
  rewrite Hid in Hsame. rewrite Hsame.
  f_equal. rewrite <- (map_id st) at 2. apply map_ext_in.
  intros x Hx. destruct (Z.eqb_spec (Cliente.id x) i) as [Hxi | Hxi]; [| reflexivity].
  symmetry. apply (NoDup_map_same Cliente.id st x r Hids Hx Hin). congruence.
Qed.

Lemma update_cliente_same_values_witness :
  (consistent two_rows /\ lookup 2 two_rows = Some bia_row
   /\ Cliente.sqlmodel_update bia_row (ClienteBase.model_dump_exclude_unset bia) = bia_row)
  /\ update_cliente 2 bia two_rows = (two_rows, Ok bia_row).
Proof.
  assert (Hc : consistent two_rows).
  { split; [exact two_rows_ids_ascending | exact two_rows_emails_unique]. }
  split; [split; [exact Hc | split; reflexivity] |].
  exact (@update_cliente_same_values two_rows 2 bia bia_row Hc eq_refl eq_refl).
Defined.

(** ** List: pages *)

Lemma firstn_plus {A} (l : list A) : forall n m,
  firstn (n + m) l = firstn n l ++ firstn m (skipn n l).
Proof.
  induction l as [| x l IH]; intros n m.
  - rewrite !firstn_nil, skipn_nil, firstn_nil. reflexivity.
  - destruct n as [| n]; cbn [Nat.add firstn skipn app]; [reflexivity |].
    rewrite IH. reflexivity.
Qed.

Lemma skipn_plus {A} (l : list A) : forall n m,
  skipn (n + m) l = skipn m (skipn n l).
Proof.
  induction l as [| x l IH]; intros n m.
  - rewrite !skipn_nil. reflexivity.
  - destruct n as [| n]; cbn [Nat.add skipn]; [reflexivity | apply IH].
Qed.

(** X12. Pages fit together: for an offset and two page sizes that are
    not negative, with a sum of at most 100 and with offset plus first
    size within 64 bits, the page of the first size at the offset followed
    by the page of the second size right after it is the page of the summed
    size at the offset.  No row is skipped and none comes twice. *)
Theorem read_clientes_consecutive_pages (st : table) (offset n m : Z) :
  0 <= offset -> 0 <= n -> 0 <= m -> n + m <= 100 ->
  offset + n <= 2 ^ 63 - 1 ->
  exists p1 p2,
    read_clientes (Some offset) (Some n) st = (st, Ok p1)
    /\ read_clientes (Some (offset + n)) (Some m) st = (st, Ok p2)
    /\ read_clientes (Some offset) (Some (n + m)) st = (st, Ok (p1 ++ p2)).
Proof.
  intros Ho Hn Hm Hsum Hfit.
  eexists _, _. rewrite !read_clientes_accepted by lia.
  split; [reflexivity |]. split; [reflexivity |].
  unfold sql_limit, sql_offset.
  destruct (Z.ltb_spec n 0); [lia |].
  destruct (Z.ltb_spec m 0); [lia |].
  destruct (Z.ltb_spec (n + m) 0); [lia |].
  rewrite !Z2Nat.inj_add by lia.
  rewrite firstn_plus, skipn_plus. reflexivity.
Qed.

Lemma read_clientes_consecutive_pages_witness :
  (0 <= 0 /\ 0 <= 1 /\ 0 <= 1 /\ 1 + 1 <= 100 /\ 0 + 1 <= 2 ^ 63 - 1)
  /\ exists p1 p2,
       read_clientes (Some 0) (Some 1) two_rows = (two_rows, Ok p1)
       /\ read_clientes (Some (0 + 1)) (Some 1) two_rows = (two_rows, Ok p2)
       /\ read_clientes (Some 0) (Some (1 + 1)) two_rows = (two_rows, Ok (p1 ++ p2)).
Proof.
  assert (H0 : 0 <= 0) by lia.
  assert (H1 : 0 <= 1) by lia.
  assert (H2 : 1 + 1 <= 100) by lia.
  assert (H3 : 0 + 1 <= 2 ^ 63 - 1) by discriminate.
  split; [repeat split; assumption |].
  exact (@read_clientes_consecutive_pages two_rows 0 1 1 H0 H1 H1 H2 H3).
Defined.

(** X13. The size of a page: for an offset from 0 to 2^63 - 1 and a limit
    from 0 to 100, List answers with as many rows as the limit says or as
    are left after the offset, whichever is less; with such an offset at or
    past the end of the table that is an empty page, not an error. *)
Theorem page_length_of_read_clientes (st : table) (offset limit : Z) :
  0 <= offset <= 2 ^ 63 - 1 -> 0 <= limit <= 100 ->
  exists page,
    read_clientes (Some offset) (Some limit) st = (st, Ok page)
    /\ List.length page = Nat.min (Z.to_nat limit) (List.length st - Z.to_nat offset)
    /\ (Z.of_nat (List.length st) <= offset -> page = []).
Proof.
  intros Ho Hl. eexists. rewrite read_clientes_accepted by lia.
  split; [reflexivity |].
  unfold sql_limit, sql_offset. destruct (Z.ltb_spec limit 0); [lia |]. split.
  - rewrite length_firstn, length_skipn. reflexivity.
  - intros Hend. rewrite skipn_all2 by lia. apply firstn_nil.
Qed.

Lemma page_length_of_read_clientes_witness :
  (0 <= 1 <= 2 ^ 63 - 1 /\ 0 <= 5 <= 100)
  /\ exists page,
       read_clientes (Some 1) (Some 5) two_rows = (two_rows, Ok page)
       /\ List.length page = Nat.min (Z.to_nat 5) (List.length two_rows - Z.to_nat 1)
       /\ (Z.of_nat (List.length two_rows) <= 1 -> page = []).
Proof.
  assert (H0 : 0 <= 1 <= 2 ^ 63 - 1) by (split; discriminate).
  assert (H1 : 0 <= 5 <= 100) by lia.
  split; [split; assumption |].
  exact (@page_length_of_read_clientes two_rows 1 5 H0 H1).
Defined.

(** X14. The bound on the limit is no bound on the page: a negative limit
    within 64 bits passes the check and stands for no limit, a negative
    offset within 64 bits stands for none; with both, or with no offset,
    List answers with every row of the table, however many there are. *)
Theorem read_clientes_negative_limit (st : table) (offset limit : Z) :
  - 2 ^ 63 <= limit < 0 -> - 2 ^ 63 <= offset <= 0 ->
  read_clientes (Some offset) (Some limit) st = (st, Ok st)
  /\ read_clientes None (Some limit) st = (st, Ok st).
Proof.
  intros Hl Ho.
  change (read_clientes None (Some limit) st)
    with (read_clientes (Some 0) (Some limit) st).
  rewrite !read_clientes_accepted by lia.
  unfold sql_limit, sql_offset.
  destruct (Z.ltb_spec limit 0); [| lia].
  replace (Z.to_nat offset) with 0%nat by lia. split; reflexivity.
Qed.

Lemma read_clientes_negative_limit_witness :
  (- 2 ^ 63 <= -1 < 0 /\ - 2 ^ 63 <= -5 <= 0)
  /\ read_clientes (Some (-5)) (Some (-1)) (numbered fifteen 1)
     = (numbered fifteen 1, Ok (numbered fifteen 1))
  /\ read_clientes None (Some (-1)) (numbered fifteen 1)
     = (numbered fifteen 1, Ok (numbered fifteen 1)).
Proof.
  assert (H0 : - 2 ^ 63 <= -1 < 0) by (split; [discriminate | reflexivity]).
  assert (H1 : - 2 ^ 63 <= -5 <= 0) by (split; discriminate).
  split; [split; assumption |].
  exact (@read_clientes_negative_limit (numbered fifteen 1) (-5) (-1) H0 H1).
Defined.

Lemma sql_page_incl offset limit st r :
  In r (sql_limit limit (sql_offset offset st)) -> In r st.
Proof.
  unfold sql_limit, sql_offset. intros H.
  assert (Hs : In r (skipn (Z.to_nat offset) st)).
  { destruct (limit <? 0); [exact H |].
    rewrite <- (firstn_skipn (Z.to_nat limit) (skipn (Z.to_nat offset) st)).
    apply in_or_app. left. exact H. }
  rewrite <- (firstn_skipn (Z.to_nat offset) st).
  apply in_or_app. right. exact Hs.
Qed.

Lemma lookup_unique st r :
  ids_unique st -> In r st -> lookup (Cliente.id r) st = Some r.
Proof.
  intros Hids Hin.
  destruct (lookup_in_ids (Cliente.id r) st (in_map _ _ _ Hin)) as [x Hx].
  rewrite Hx. pose proof (lookup_some _ _ Hx) as [Hxin Hxid].
  f_equal. apply (NoDup_map_same Cliente.id st x r Hids Hxin Hin Hxid).
Qed.

(** X15. List and Get agree: in a table where no id comes twice, every
    row of a page List answers with, for any offset and limit, is the row
    Get answers with for the id of that row. *)
Theorem listed_row_is_found (st : table) (offset limit : option Z)
        (page : list Cliente.t) (r : Cliente.t) :
  ids_unique st ->
  read_clientes offset limit st = (st, Ok page) ->
  In r page ->
  read_cliente (Cliente.id r) st = (st, Ok r).
Proof.
  intros Hids Hlist Hin.
  assert (Hr : In r st).
  { unfold read_clientes, exec_all in Hlist.
    destruct (_ <=? 100); [| discriminate].
    destruct (_ && _); [| discriminate].
    injection Hlist as <-. apply (sql_page_incl _ _ _ _ Hin). }
  unfold read_cliente, bind.
  rewrite (session_get_found _ _ (@lookup_unique st r Hids Hr)). reflexivity.
Qed.

Lemma listed_row_is_found_witness :
  (ids_unique two_rows
   /\ read_clientes (Some 1) None two_rows = (two_rows, Ok [bia_row])
   /\ In bia_row [bia_row])
  /\ read_cliente (Cliente.id bia_row) two_rows = (two_rows, Ok bia_row).
Proof.
  assert (Hids : ids_unique two_rows).
  { apply ids_ascending_unique. exact two_rows_ids_ascending. }
  assert (Hin : In bia_row [bia_row]) by (left; reflexivity).
  split; [split; [exact Hids | split; [reflexivity | exact Hin]] |].
  exact (@listed_row_is_found two_rows (Some 1) None [bia_row] bia_row
           Hids eq_refl Hin).
Defined.

(** ** Ids in reachable tables *)

Lemma next_rowid_positive st :
  Forall (fun i => 1 <= i) (map Cliente.id st) -> 1 <= next_rowid st.
Proof.
  destruct st as [| r st]; cbn [next_rowid map]; intros H; [lia |].
  inversion H as [| ? ? Hr _]; subst.
  pose proof (fold_max_ge (map Cliente.id st) (Cliente.id r)). lia.
Qed.

Lemma Forall_map_filter {A B} (P : B -> Prop) (f : A -> B) (p : A -> bool) l :
  Forall P (map f l) -> Forall P (map f (filter p l)).
Proof.
  rewrite !Forall_forall. intros H y Hy.
  apply in_map_iff in Hy as (x & <- & Hx). apply filter_In in Hx as [Hx _].
  apply H. apply in_map. exact Hx.
Qed.

Lemma step_ids_positive st req :
  Forall (fun i => 1 <= i) (map Cliente.id st) ->
  Forall (fun i => 1 <= i) (map Cliente.id (step st req)).
Proof.
  intros H. destruct req as [body | offset limit | i | i body | i]; cbn [step].
  - unfold post_clientes. destruct (Body.validate body) as [c |]; [| exact H].
    destruct (has_email_dec (ClienteBase.email c) st) as [Hin | Hno].
    + rewrite (create_cliente_taken c Hin). exact H.
    + rewrite (create_cliente_fresh c Hno). cbn [fst].
      rewrite map_app. apply Forall_app. split; [exact H |].
      constructor; [| constructor]. apply next_rowid_positive. exact H.
  - rewrite (proj2 (read_only_handlers st)). exact H.
  - rewrite (proj1 (read_only_handlers st)). exact H.
  - unfold patch_cliente. destruct (Body.validate body) as [c |]; [| exact H].
    destruct (update_cliente_cases i c st)
      as [E | [E | (r & r' & _ & _ & Hid & E)]]; rewrite E; cbn [fst];
      try exact H.
    subst i. rewrite replace_ids. exact H.
  - rewrite delete_cliente_table. destruct (lookup i st); [| exact H].
    apply Forall_map_filter. exact H.
Qed.

Lemma reachable_positive_ids st :
  reachable st -> Forall (fun i => 1 <= i) (map Cliente.id st).
Proof.
  induction 1 as [| st req _ IH]; [constructor |].
  apply step_ids_positive. exact IH.
Qed.

(** X16. The primary key in every table a sequence of requests leads to
    from the empty table: the ids go up strictly along the table, so the
    order of the rows is the order of their ids, no two rows have the same
    id, and every id is at least 1. *)
Theorem reachable_ids (st : table) :
  reachable st ->
  ids_ascending st /\ ids_unique st /\ (forall r, In r st -> 1 <= Cliente.id r).
Proof.
  intros H. pose proof (proj1 (reachable_consistent H)) as Hasc.
  split; [exact Hasc |]. split; [apply ids_ascending_unique; exact Hasc |].
  intros r Hr. pose proof (reachable_positive_ids H) as Hpos.
  rewrite Forall_forall in Hpos. apply Hpos. apply in_map. exact Hr.
Qed.

Lemma reachable_ids_witness :
  reachable (run [] [Create ana_body; Create bia_body; Delete 1; Create ana_body])
  /\ ids_ascending [bia_row; Cliente.mk 3 "Ana" "ana@crm.br" (Some "1111") (Some "ACME")]
  /\ ids_unique [bia_row; Cliente.mk 3 "Ana" "ana@crm.br" (Some "1111") (Some "ACME")]
  /\ (forall r,
        In r [bia_row; Cliente.mk 3 "Ana" "ana@crm.br" (Some "1111") (Some "ACME")] ->
        1 <= Cliente.id r).
Proof.
  assert (Hr : reachable (run [] [Create ana_body; Create bia_body; Delete 1;
                                  Create ana_body])).
  { apply reachable_run. constructor. }
  split; [exact Hr | exact (@reachable_ids _ Hr)].
Defined.

(** ** Failed requests *)

Lemma serve_table req st : fst (serve req st) = step st req.
Proof.
  destruct req; cbn [serve step]; unfold fmap, bind;
    match goal with |- context [match ?m with _ => _ end] =>
      destruct m as [st' [a | e]] end; reflexivity.
Qed.

Lemma fmap_error {A B} (f : A -> B) (m : Session A) st e :
  snd (fmap f m st) = Err e -> snd (m st) = Err e /\ fst (fmap f m st) = fst (m st).
Proof.
  unfold fmap, bind, ret. destruct (m st) as [st' [a | e']]; cbn [fst snd].
  - discriminate.
  - intros [= <-]. split; reflexivity.
Qed.

Lemma post_clientes_error body st e :
  snd (post_clientes body st) = Err e ->
  fst (post_clientes body st) = st
  /\ (e = RequestValidationError \/ e = DuplicateEmail).
Proof.
  unfold post_clientes. destruct (Body.validate body) as [c |].
  - destruct (has_email_dec (ClienteBase.email c) st) as [Hin | Hno].
    + rewrite (create_cliente_taken c Hin). cbn [fst snd].
      intros [= <-]. auto.
    + rewrite (create_cliente_fresh c Hno). discriminate.
  - cbn. intros [= <-]. auto.
Qed.

Lemma patch_cliente_error i body st e :
  snd (patch_cliente i body st) = Err e ->
  fst (patch_cliente i body st) = st
  /\ (e = RequestValidationError \/ e = IntegrityError
      \/ e = if int64 i then NotFound else OverflowError).
Proof.
  unfold patch_cliente. destruct (Body.validate body) as [c |].
  - destruct (update_cliente_cases i c st)
      as [E | [E | (r & r' & _ & _ & _ & E)]]; rewrite E; cbn [fst snd].
    + intros [= <-]. auto.
    + intros [= <-]. auto.
    + discriminate.
  - cbn. intros [= <-]. auto.
Qed.

Lemma delete_cliente_error i st e :
  snd (delete_cliente i st) = Err e ->
  fst (delete_cliente i st) = st
  /\ e = (if int64 i then NotFound else OverflowError).
Proof.
  destruct (lookup i st) as [r |] eqn:Hget.
  - unfold delete_cliente, bind, delete_commit, ret.
    rewrite (session_get_found _ _ Hget). discriminate.
  - rewrite (delete_cliente_missing _ _ Hget). cbn [fst snd].
    intros [= <-]. auto.
Qed.

Lemma read_cliente_error i st e :
  snd (read_cliente i st) = Err e ->
  e = (if int64 i then NotFound else OverflowError).
Proof.
  rewrite read_cliente_response. destruct (lookup i st); [discriminate |].
  intros [= <-]. reflexivity.
Qed.

Lemma read_clientes_error offset limit st e :
  snd (read_clientes offset limit st) = Err e ->
  e = RequestValidationError \/ e = OverflowError.
Proof.
  unfold read_clientes, exec_all, raise. destruct (_ <=? 100); cbn [snd].
  - destruct (_ && _); cbn [snd]; [discriminate |]. intros [= <-]. auto.
  - intros [= <-]. auto.
Qed.

(** X17. A request that is answered with an error has written nothing:
    for every request and every table, when the answer is an error the
    table after the request is the table before it. *)
Theorem failed_request_leaves_table (st : table) (req : request) (e : error) :
  snd (serve req st) = Err e -> fst (serve req st) = st.
Proof.
  intros H. destruct req as [body | offset limit | i | i body | i];
    cbn [serve] in *; apply fmap_error in H as [H ->].
  - apply (post_clientes_error _ _ H).
  - apply (proj2 (read_only_handlers st)).
  - apply (proj1 (read_only_handlers st)).
  - apply (patch_cliente_error _ _ _ H).
  - apply (delete_cliente_error _ _ H).
Qed.

Lemma failed_request_leaves_table_witness :
  snd (serve (Update 2 (FieldsDict.mk (Some "Bia") (Some "ana@crm.br") None None))
             two_rows) = Err IntegrityError
  /\ fst (serve (Update 2 (FieldsDict.mk (Some "Bia") (Some "ana@crm.br") None None))
                two_rows) = two_rows.
Proof.
  split; [reflexivity |].
  exact (@failed_request_leaves_table two_rows
           (Update 2 (FieldsDict.mk (Some "Bia") (Some "ana@crm.br") None None))
           IntegrityError eq_refl).
Defined.

(** X18. The errors of each route, for a path id and query parameters
    that are integers.  Create fails only on validation (422) or on a
    duplicate email (400), never with a server error; List fails only on
    validation or with the overflow error (500); Get and Delete fail only
    with NotFound (404), for an id within 64 bits, or with the overflow
    error, for an id outside; Update fails only in one of these two ways,
    on validation, or with the integrity error of the unique index
    (500). *)
Theorem failed_request_error (st : table) (req : request) (e : error) :
  snd (serve req st) = Err e ->
  match req with
  | Create _ => e = RequestValidationError \/ e = DuplicateEmail
  | List _ _ => e = RequestValidationError \/ e = OverflowError
  | Get i => e = (if int64 i then NotFound else OverflowError)
  | Update i _ =>
      e = RequestValidationError \/ e = IntegrityError
      \/ e = (if int64 i then NotFound else OverflowError)
  | Delete i => e = (if int64 i then NotFound else OverflowError)
  end.
Proof.
  intros H. destruct req as [body | offset limit | i | i body | i];
    cbn [serve] in *; apply fmap_error in H as [H _].
  - apply (post_clientes_error _ _ H).
  - apply (read_clientes_error _ _ _ H).
  - apply (read_cliente_error _ _ H).
  - apply (patch_cliente_error _ _ _ H).
  - apply (delete_cliente_error _ _ H).
Qed.

Lemma failed_request_error_witness :
  snd (serve (Delete (2 ^ 63)) two_rows) = Err OverflowError
  /\ OverflowError = (if int64 (2 ^ 63) then NotFound else OverflowError).
Proof.
  split; [reflexivity |].
  exact (@failed_request_error two_rows (Delete (2 ^ 63)) OverflowError eq_refl).
Defined.

(** ** The body of a request and the dict of the update *)

(** X19. Validation and [model_dump(exclude_unset=True)] undo each other:
    the dict an update works with has exactly the keys of the body that
    was validated, with their values, and a dumped [ClienteBase] validates
    to itself. *)
Theorem validate_model_dump (body : FieldsDict.t) (c : ClienteBase.t) :
  ClienteBase.validate (ClienteBase.model_dump_exclude_unset c) = Some c
  /\ (ClienteBase.validate body = Some c ->
      ClienteBase.model_dump_exclude_unset c = body).
Proof.
  split.
  - destruct c. reflexivity.
  - unfold ClienteBase.validate. destruct body as [[n |] [e |] t m]; cbn;
      try discriminate.
    intros [= <-]. reflexivity.
Qed.

Lemma validate_model_dump_witness :
  ClienteBase.validate ana_body = Some ana
  /\ ClienteBase.model_dump_exclude_unset ana = ana_body.
Proof.
  split; [reflexivity |].
  exact (proj2 (@validate_model_dump ana_body ana) eq_refl).
Defined.

(** ** Starting the service again *)

Lemma run_app st reqs1 reqs2 : run (run st reqs1) reqs2 = run st (reqs1 ++ reqs2).
Proof. unfold run. symmetry. apply fold_left_app. Qed.

Lemma run_consistent reqs : forall st, consistent st -> consistent (run st reqs).
Proof.
  induction reqs as [| req reqs IH]; intros st H; [exact H |].
  apply IH. apply step_consistent. exact H.
Qed.

(** X20. A restart loses nothing: the table is created at the first start
    only, so serving some requests, stopping, starting again and serving
    more leaves the database as one run that serves all of them would, and
    the database has the table; each run prints its two lines. *)
Theorem restart_keeps_table (db : database) (reqs1 reqs2 : list request)
        (out : list string) :
  let first := lifespan reqs1 db out in
  let second := lifespan reqs2 (fst first) (snd first) in
  fst second = fst (lifespan (reqs1 ++ reqs2) db out)
  /\ fst second <> None
  /\ snd second
     = out ++ ["Iniciando a API e criando tabelas no banco de dados...";
               "Desligando a API...";
               "Iniciando a API e criando tabelas no banco de dados...";
               "Desligando a API..."].
Proof.
  unfold lifespan, create_db_and_tables.
  destruct db as [st |]; cbn [fst snd]; rewrite run_app;
    (split; [reflexivity | split; [discriminate |]]);
    rewrite <- !app_assoc; reflexivity.
Qed.

(** X21. Every run of the service keeps the table consistent: started on a
    file without the table, or with a table whose ids go up and whose
    emails differ, it leaves a table of that kind, whatever the requests. *)
Theorem lifespan_consistent (db : database) (reqs : list request) (out : list string) :
  (forall st, db = Some st -> consistent st) ->
  exists st', fst (lifespan reqs db out) = Some st' /\ consistent st'.
Proof.
  intros H. unfold lifespan, create_db_and_tables.
  destruct db as [st |]; cbn [fst]; eexists; (split; [reflexivity |]);
    apply run_consistent.
  - apply H. reflexivity.
  - split; constructor.
Qed.

Lemma lifespan_consistent_witness :
  (forall st, @None table = Some st -> consistent st)
  /\ exists st',
       fst (lifespan [Create ana_body; Create ana_body; Create bia_body] None [])
       = Some st' /\ consistent st'.
Proof.
  assert (H : forall st, @None table = Some st -> consistent st)
    by (intros st E; discriminate E).
  split; [exact H |].
  exact (@lifespan_consistent None [Create ana_body; Create ana_body; Create bia_body]
           [] H).
Defined.

Example restart_on_two_rows :
  fst (lifespan [Get 1] (fst (lifespan [Create ana_body; Create bia_body] None [])) [])
  = Some two_rows.
Proof. reflexivity. Qed.

(** ** Validation of the body *)

(** Which bodies fail validation. *)
Lemma body_validate_none (body : Body.t) :
  Body.validate body = None
  <-> (forall v, Body.nome body <> Some (JString v))
      \/ (forall v, Body.email body <> Some (JString v))
      \/ Body.telefone body = Some JOther
      \/ Body.empresa body = Some JOther.
Proof.
  destruct body as [n e t m].
  unfold Body.validate, Body.typed, ClienteBase.validate.
  cbn [Body.nome Body.email Body.telefone Body.empresa].
  destruct n as [[| sn |] |], e as [[| se |] |], t as [[| st |] |], m as [[| sm |] |];
    cbn; (split; intros H;
      [ try discriminate H;
        first [ left; intros v Hv; discriminate Hv
              | right; left; intros v Hv; discriminate Hv
              | right; right; left; reflexivity
              | right; right; right; reflexivity ]
      | try reflexivity; exfalso;
        destruct H as [H | [H | [H | H]]];
        first [ discriminate H | exact (H _ eq_refl) ] ]).
Qed.

(** X22. POST and PATCH share the schema of the body.  For a body that
    is a JSON object, each is answered with the validation error, status
    422, exactly when [nome] or [email] is not there as a string (absent,
    null or of another kind) or [telefone] or [empresa] is there and
    neither a string nor null; this whatever the table and the id are. *)
Theorem body_validation (st : table) (i : Z) (body : Body.t) :
  (snd (post_clientes body st) = Err RequestValidationError
   <-> snd (patch_cliente i body st) = Err RequestValidationError)
  /\ (snd (patch_cliente i body st) = Err RequestValidationError
      <-> (forall v, Body.nome body <> Some (JString v))
          \/ (forall v, Body.email body <> Some (JString v))
          \/ Body.telefone body = Some JOther
          \/ Body.empresa body = Some JOther)
  /\ status RequestValidationError = 422.
Proof.
  rewrite <- body_validate_none. unfold post_clientes, patch_cliente.
  assert (Hpost : forall c, snd (create_cliente c st) <> Err RequestValidationError).
  { intros c H.
    destruct (has_email_dec (ClienteBase.email c) st) as [Hin | Hno].
    - rewrite (create_cliente_taken c Hin) in H. discriminate.
    - rewrite (create_cliente_fresh c Hno) in H. discriminate. }
  assert (Hpatch : forall c, snd (update_cliente i c st) <> Err RequestValidationError).
  { intros c H.
    destruct (update_cliente_cases i c st)
      as [E | [E | (r & r' & _ & _ & _ & E)]]; rewrite E in H;
      [destruct (int64 i) | |]; discriminate. }
  destruct (Body.validate body) as [c |].
  - split; [| split; [| reflexivity]].
    + split; intros H; exfalso; [exact (Hpost c H) | exact (Hpatch c H)].
    + split; [intros H; exfalso; exact (Hpatch c H) | discriminate].
  - repeat split.
Qed.
